(** * claude-devtools: remote filesystem provider, snapshot store and
      context switching

    A shallow embedding of
    - [SshFileSystemProvider] (error classification, the bounded retry loops
      of [readFile], [stat] and [readdir], [exists], [createReadStream]),
    - [contextStorage] (the TTL- and version-checked snapshot store on
      idb-keyval),
    - the context slice ([validateSnapshot], [captureSnapshot],
      [switchContext]) and the gate of the [ContextSwitcher] component,
    followed by the properties established about them. *)

From Stdlib Require Import ZArith QArith_base Lia Ascii.
From stdpp Require Import base gmap strings list pretty.

#[local] Set Warnings "-clear-no-such-hyp".

Local Open Scope Z_scope.

(** ** Values shared by all parts *)

(** The [code] property of a thrown value, as [getErrorCode] probes it:
    a number, a string, or anything else (no such property, a value that is
    not an object, a code of another type). Numeric codes are integers
    here; a fractional code prints to a string that none of the comparisons
    below matches, like any unlisted integer. *)
Inductive JsCode :=
| CodeNumber (n : Z)
| CodeString (s : string)
| CodeAbsent.

(** A thrown value. [instanceofError] is what [e instanceof Error] gives. *)
Record JsError := MkJsError {
  instanceofError : bool;
  code : JsCode;
  message : string
}.

(** An awaited call either resolves or rejects. *)
Inductive outcome (A : Type) :=
| Returned (a : A)
| Thrown (e : JsError).
Arguments Returned {A} a.
Arguments Thrown {A} e.

(** JavaScript truthiness of a [string | null | undefined]. *)
Definition truthy (s : option string) : bool :=
  match s with
  | Some EmptyString => false
  | Some _ => true
  | None => false
  end.

(** [s.slice(n)] for an [n] that is not negative. *)
Fixpoint slice (n : nat) (s : string) : string :=
  match n, s with
  | O, _ => s
  | S n', String _ s' => slice n' s'
  | S _, EmptyString => EmptyString
  end.

(** * SshFileSystemProvider *)
Module Ssh.

Inductive SftpErrorKind := not_found | transient | permanent.

#[global] Instance SftpErrorKind_eq_dec : EqDecision SftpErrorKind.
Proof. solve_decision. Defined.

Definition SftpErrorKind_eqb (a b : SftpErrorKind) : bool :=
  match a, b with
  | not_found, not_found | transient, transient | permanent, permanent => true
  | _, _ => false
  end.

Definition MAX_RETRIES : Z := 3.
Definition RETRY_BASE_DELAY_MS : Z := 75.

(** [String(code)] for a number, the string itself for a string, the empty
    string otherwise. *)
Definition getErrorCode (error : JsError) : string :=
  match code error with
  | CodeNumber n => pretty n
  | CodeString s => s
  | CodeAbsent => EmptyString
  end.

Definition isNotFoundError (error : JsError) : bool :=
  let c := getErrorCode error in
  String.eqb c "2" || String.eqb c "ENOENT".

Definition isRetryableError (error : JsError) : bool :=
  let c := getErrorCode error in
  String.eqb c "4" || String.eqb c "EAGAIN" || String.eqb c "ECONNRESET"
  || String.eqb c "ETIMEDOUT" || String.eqb c "EPIPE".

Definition classifySftpError (error : JsError) : SftpErrorKind :=
  if isNotFoundError error then not_found
  else if isRetryableError error then transient
  else permanent.

(** What the channel hands to the callbacks. *)
Record Stats := MkStats {
  stats_mode : Z;
  stats_size : Z;
  stats_mtime : option Z
}.

Record Attrs := MkAttrs {
  attrs_mode : Z;
  attrs_size : option Z;
  attrs_mtime : option Z
}.

Record FileEntry := MkFileEntry {
  filename : string;
  attrs : Attrs
}.

(** What the provider resolves with. [isFile] and [isDirectory] are thunks
    closed over the mode in the source; the fields hold what the thunks
    return. *)
Record FsStatResult := MkFsStatResult {
  size : Z;
  mtimeMs : Z;
  birthtimeMs : Z;
  isFile : bool;
  isDirectory : bool
}.

Record FsDirent := MkFsDirent {
  dirent_name : string;
  dirent_isFile : bool;
  dirent_isDirectory : bool;
  dirent_size : option Z;
  dirent_mtimeMs : option Z;
  dirent_birthtimeMs : option Z
}.

Record ReadStreamOptions := MkReadStreamOptions {
  opt_start : option Z;
  opt_encoding : option string
}.

(** 0o170000, 0o100000, 0o040000 *)
Definition S_IFMT : Z := 61440.
Definition S_IFREG : Z := 32768.
Definition S_IFDIR : Z := 16384.

Definition statResult (stats : Stats) : FsStatResult :=
  let mode := stats_mode stats in
  {| size := stats_size stats;
     mtimeMs := default 0 (stats_mtime stats) * 1000;
     birthtimeMs := default 0 (stats_mtime stats) * 1000;
     isFile := Z.land mode S_IFMT =? S_IFREG;
     isDirectory := Z.land mode S_IFMT =? S_IFDIR |}.

Definition buildDirent (filename : string) (mode sifmt sifreg sifdir : Z)
    (size mtimeSeconds : option Z) : FsDirent :=
  let mtimeMs := (fun s => s * 1000) <$> mtimeSeconds in
  {| dirent_name := filename;
     dirent_isFile := Z.land mode sifmt =? sifreg;
     dirent_isDirectory := Z.land mode sifmt =? sifdir;
     dirent_size := size;
     dirent_mtimeMs := mtimeMs;
     dirent_birthtimeMs := mtimeMs |}.

Definition direntOf (item : FileEntry) : FsDirent :=
  buildDirent (filename item) (attrs_mode (attrs item)) S_IFMT S_IFREG S_IFDIR
    (attrs_size (attrs item)) (attrs_mtime (attrs item)).

(** The stream object [sftp.createReadStream] returns: its identity and
    whether its [pipe] and [on] methods throw when called. *)
Record SftpStream := MkSftpStream {
  sftpStream_id : nat;
  pipe_throws : option JsError;
  on_throws : option JsError
}.

Inductive SftpOp := OpReadFile | OpStat | OpReaddir.

(** What the provider does to the outside, in order: a call on the channel
    with the error it was answered with, if any, and a timer. Logging is
    left out. *)
Inductive Event :=
| EvSftp (op : SftpOp) (path : string) (rejection : option JsError)
| EvSleep (ms : Z).

(** A PassThrough of the Node runtime. *)
Inductive StreamStatus :=
| Flowing
| Errored (e : JsError).

Section Provider.

(** The state of the remote end and of the connection. *)
Variable Chan : Type.

(** The SFTPWrapper: each call answers from the state of the channel and
    moves it on. *)
Record SFTPWrapper := MkSFTPWrapper {
  sftp_readFile : string -> string -> Chan -> (JsError + string) * Chan;
  sftp_stat : string -> Chan -> (JsError + Stats) * Chan;
  sftp_readdir : string -> Chan -> (JsError + list FileEntry) * Chan;
  sftp_createReadStream :
    string -> ReadStreamOptions -> Chan -> (JsError + SftpStream) * Chan;
  sftp_end : Chan -> option JsError * Chan
}.

Variable sftp : SFTPWrapper.

(** The channel, the trace of calls and timers, the PassThrough streams
    allocated so far (a stream is named by its index), the pipes and error
    handlers attached to channel streams, and the callbacks queued with
    [process.nextTick]: [(s, e)] stands for [() => s.destroy(e)]. *)
Record World := MkWorld {
  chan : Chan;
  log : list Event;
  streams : list StreamStatus;
  pipes : list (nat * nat);
  errorHandlers : list (nat * nat);
  nextTickQueue : list (nat * JsError)
}.

Definition setChan (c : Chan) (w : World) : World :=
  MkWorld c (log w) (streams w) (pipes w) (errorHandlers w) (nextTickQueue w).

Definition emit (ev : Event) (w : World) : World :=
  MkWorld (chan w) (log w ++ [ev]) (streams w) (pipes w) (errorHandlers w)
    (nextTickQueue w).

Definition sleep (ms : Z) (w : World) : World := emit (EvSleep ms) w.

Definition rejectionOf {A} (r : JsError + A) : option JsError :=
  match r with
  | inl e => Some e
  | inr _ => None
  end.

(** One pass through the channel: the call is recorded, the channel moves. *)
Definition request {A} (op : SftpOp) (path : string)
    (call : Chan -> (JsError + A) * Chan) (w : World) : (JsError + A) * World :=
  let '(r, c) := call (chan w) in
  (r, setChan c (emit (EvSftp op path (rejectionOf r)) w)).

(** The [for (let attempt = 1; attempt <= MAX_RETRIES; attempt++)] loop
    that [readFile], [stat] and [readdir] each spell out around their own
    channel call. [remaining] counts the iterations the loop condition
    still admits, [MAX_RETRIES + 1 - attempt]; when it is used up the
    statement after the loop throws [lastError], or a fresh Error carrying
    [failure] when [lastError] is not an Error. *)
Fixpoint attemptLoop {A B} (op : SftpOp) (path : string)
    (call : Chan -> (JsError + A) * Chan) (resolve : A -> B)
    (failure : string) (remaining : nat) (attempt : Z)
    (lastError : option JsError) (w : World) : outcome B * World :=
  match remaining with
  | O =>
      match lastError with
      | Some e =>
          if instanceofError e then (Thrown e, w)
          else (Thrown (MkJsError true CodeAbsent failure), w)
      | None => (Thrown (MkJsError true CodeAbsent failure), w)
      end
  | S remaining' =>
      match request op path call w with
      | (inr a, w1) => (Returned (resolve a), w1)
      | (inl error, w1) =>
          if SftpErrorKind_eqb (classifySftpError error) transient
             && (attempt <? MAX_RETRIES)
          then attemptLoop op path call resolve failure remaining'
                 (attempt + 1) (Some error)
                 (sleep (RETRY_BASE_DELAY_MS * attempt) w1)
          else (Thrown error, w1)
      end
  end.

Definition readFile (filePath : string) (encoding : string) (w : World)
    : outcome string * World :=
  attemptLoop OpReadFile filePath (sftp_readFile sftp filePath encoding) id
    ("Failed to read file: " +:+ filePath) (Z.to_nat MAX_RETRIES) 1 None w.

Definition stat (filePath : string) (w : World) : outcome FsStatResult * World :=
  attemptLoop OpStat filePath (sftp_stat sftp filePath) statResult
    ("Failed to stat: " +:+ filePath) (Z.to_nat MAX_RETRIES) 1 None w.

Definition readdir (dirPath : string) (w : World)
    : outcome (list FsDirent) * World :=
  attemptLoop OpReaddir dirPath (sftp_readdir sftp dirPath) (map direntOf)
    ("Failed to read directory: " +:+ dirPath) (Z.to_nat MAX_RETRIES) 1 None w.

(** [exists]: the name is a keyword here. *)
Definition exists_ (filePath : string) (w : World) : bool * World :=
  match stat filePath w with
  | (Returned _, w1) => (true, w1)
  | (Thrown error, w1) =>
      let errorKind := classifySftpError error in
      if SftpErrorKind_eqb errorKind not_found then (false, w1)
      else if SftpErrorKind_eqb errorKind transient then (true, w1)
      else (false, w1)
  end.

(** [new PassThrough()] *)
Definition newPassThrough (w : World) : nat * World :=
  (length (streams w),
   MkWorld (chan w) (log w) (streams w ++ [Flowing]) (pipes w)
     (errorHandlers w) (nextTickQueue w)).

(** [s.destroy(e)]: the first error sticks. *)
Definition destroyStream (s : nat) (e : JsError) (l : list StreamStatus)
    : list StreamStatus :=
  match l !! s with
  | Some Flowing => <[s := Errored e]> l
  | _ => l
  end.

Definition addPipe (src dst : nat) (w : World) : World :=
  MkWorld (chan w) (log w) (streams w) (pipes w ++ [(src, dst)])
    (errorHandlers w) (nextTickQueue w).

Definition addErrorHandler (src dst : nat) (w : World) : World :=
  MkWorld (chan w) (log w) (streams w) (pipes w)
    (errorHandlers w ++ [(src, dst)]) (nextTickQueue w).

Definition nextTick (s : nat) (e : JsError) (w : World) : World :=
  MkWorld (chan w) (log w) (streams w) (pipes w) (errorHandlers w)
    (nextTickQueue w ++ [(s, e)]).

(** The [catch] arm of [createReadStream]. *)
Definition erroredStream (err : JsError) (w : World) : nat * World :=
  let '(errStream, w1) := newPassThrough w in
  (errStream, nextTick errStream err w1).

Definition createReadStream (filePath : string) (opts : option ReadStreamOptions)
    (w : World) : nat * World :=
  let options :=
    {| opt_start := opts ≫= opt_start; opt_encoding := opts ≫= opt_encoding |} in
  match sftp_createReadStream sftp filePath options (chan w) with
  | (inl err, c) => erroredStream err (setChan c w)
  | (inr sftpStream, c) =>
      let '(passthrough, w1) := newPassThrough (setChan c w) in
      match pipe_throws sftpStream with
      | Some err => erroredStream err w1
      | None =>
          let w2 := addPipe (sftpStream_id sftpStream) passthrough w1 in
          match on_throws sftpStream with
          | Some err => erroredStream err w2
          | None =>
              (passthrough,
               addErrorHandler (sftpStream_id sftpStream) passthrough w2)
          end
      end
  end.

(** Whether the set-up of [createReadStream] throws, and what. *)
Definition setupFailure (filePath : string) (opts : option ReadStreamOptions)
    (w : World) : option JsError :=
  let options :=
    {| opt_start := opts ≫= opt_start; opt_encoding := opts ≫= opt_encoding |} in
  match sftp_createReadStream sftp filePath options (chan w) with
  | (inl err, _) => Some err
  | (inr sftpStream, _) =>
      match pipe_throws sftpStream with
      | Some err => Some err
      | None => on_throws sftpStream
      end
  end.

(** The event loop reaching the queued [nextTick] callbacks: each runs, in
    order, and the queue is empty afterwards. *)
Definition runNextTicks (w : World) : World :=
  MkWorld (chan w) (log w)
    (foldl (fun l t => destroyStream t.1 t.2 l) (streams w) (nextTickQueue w))
    (pipes w) (errorHandlers w) [].

(** [dispose]: an error of [sftp.end()] is swallowed. *)
Definition dispose (w : World) : World :=
  let '(_, c) := sftp_end sftp (chan w) in setChan c w.

(** The three retried operations under one name, for statements that hold
    of each: what the channel answers to the operation's call in a given
    state, and what the operation throws. *)
Inductive Operation :=
| ReadFile (filePath encoding : string)
| Stat (filePath : string)
| Readdir (dirPath : string).

Definition channelError (o : Operation) (c : Chan) : option JsError :=
  match o with
  | ReadFile filePath encoding =>
      rejectionOf (sftp_readFile sftp filePath encoding c).1
  | Stat filePath => rejectionOf (sftp_stat sftp filePath c).1
  | Readdir dirPath => rejectionOf (sftp_readdir sftp dirPath c).1
  end.

Definition thrownOf {A} (r : outcome A * World) : option JsError * World :=
  match r with
  | (Thrown e, w) => (Some e, w)
  | (Returned _, w) => (None, w)
  end.

Definition thrownBy (o : Operation) (w : World) : option JsError * World :=
  match o with
  | ReadFile filePath encoding => thrownOf (readFile filePath encoding w)
  | Stat filePath => thrownOf (stat filePath w)
  | Readdir dirPath => thrownOf (readdir dirPath w)
  end.

Definition attemptOf (o : Operation) (rejection : option JsError) : Event :=
  match o with
  | ReadFile filePath _ => EvSftp OpReadFile filePath rejection
  | Stat filePath => EvSftp OpStat filePath rejection
  | Readdir dirPath => EvSftp OpReaddir dirPath rejection
  end.

(** The shape of the trace of one operation, with what it throws: a
    resolved call, a rejected call whose error is thrown, or a call
    rejected with a transient error, a timer, and the rest. *)
Inductive retryTrace : list Event -> option JsError -> Prop :=
| retryTrace_resolved op path :
    retryTrace [EvSftp op path None] None
| retryTrace_thrown op path e :
    retryTrace [EvSftp op path (Some e)] (Some e)
| retryTrace_retry op path e ms evs r :
    classifySftpError e = transient ->
    retryTrace evs r ->
    retryTrace (EvSftp op path (Some e) :: EvSleep ms :: evs) r.

(** Every queued callback is about a stream that exists. *)
Definition queueAllocated (w : World) : Prop :=
  Forall (fun t => (t.1 < length (streams w))%nat) (nextTickQueue w).

End Provider.

Arguments chan {Chan} w.
Arguments log {Chan} w.
Arguments streams {Chan} w.
Arguments pipes {Chan} w.
Arguments errorHandlers {Chan} w.
Arguments nextTickQueue {Chan} w.
Arguments MkWorld {Chan}.
Arguments MkSFTPWrapper {Chan}.
Arguments sftp_readFile {Chan} s filePath encoding c.
Arguments sftp_stat {Chan} s filePath c.
Arguments sftp_readdir {Chan} s dirPath c.
Arguments sftp_createReadStream {Chan} s filePath options c.
Arguments sftp_end {Chan} s c.
Arguments setChan {Chan} c w.
Arguments emit {Chan} ev w.
Arguments sleep {Chan} ms w.
Arguments request {Chan A} op path call w.
Arguments attemptLoop {Chan A B} op path call resolve failure remaining attempt
  lastError w.
Arguments readFile {Chan} sftp filePath encoding w.
Arguments stat {Chan} sftp filePath w.
Arguments readdir {Chan} sftp dirPath w.
Arguments exists_ {Chan} sftp filePath w.
Arguments newPassThrough {Chan} w.
Arguments nextTick {Chan} s e w.
Arguments erroredStream {Chan} err w.
Arguments createReadStream {Chan} sftp filePath opts w.
Arguments setupFailure {Chan} sftp filePath opts w.
Arguments runNextTicks {Chan} w.
Arguments dispose {Chan} sftp w.
Arguments rejectionOf {A} r.
Arguments channelError {Chan} sftp o c.
Arguments thrownOf {Chan A} r.
Arguments thrownBy {Chan} sftp o w.
Arguments queueAllocated {Chan} w.

(** A channel that answers every call with the same error, and a runtime
    that has not allocated anything yet. *)
Definition failingChannel (e : JsError) : SFTPWrapper unit :=
  {| sftp_readFile := fun _ _ c => (inl e, c);
     sftp_stat := fun _ c => (inl e, c);
     sftp_readdir := fun _ c => (inl e, c);
     sftp_createReadStream := fun _ _ c => (inl e, c);
     sftp_end := fun c => (None, c) |}.

Definition freshWorld : World unit := MkWorld tt [] [] [] [] [].

Definition sftpFailure : JsError := MkJsError true (CodeNumber 4) "Failure".
Definition sftpNoSuchFile : JsError := MkJsError true (CodeNumber 2) "No such file".
Definition sftpPermissionDenied : JsError :=
  MkJsError true (CodeNumber 3) "Permission denied".

(** ** Measures on traces, and errors of channel streams *)

Definition isAttempt (ev : Event) : bool :=
  match ev with
  | EvSftp _ _ _ => true
  | EvSleep _ => false
  end.

Definition sleepOf (ev : Event) : option Z :=
  match ev with
  | EvSftp _ _ _ => None
  | EvSleep ms => Some ms
  end.

(** The number of channel calls in a trace, and its timers in order. *)
Definition attemptsIn (evs : list Event) : nat := length (List.filter isAttempt evs).
Definition sleepsIn (evs : list Event) : list Z := omap sleepOf evs.

(** The channel stream [src] emitting ['error']: every handler registered
    on it by [createReadStream] runs, [(err) => passthrough.destroy(err)]. *)
Definition sftpStreamError {Chan} (src : nat) (err : JsError) (w : World Chan)
    : World Chan :=
  MkWorld (chan w) (log w)
    (foldl (fun l h => if Nat.eqb h.1 src then destroyStream h.2 err l else l)
       (streams w) (errorHandlers w))
    (pipes w) (errorHandlers w) (nextTickQueue w).

(** Every registered handler is about a PassThrough that exists. *)
Definition handlersAllocated {Chan} (w : World Chan) : Prop :=
  Forall (fun h => (h.2 < length (streams w))%nat) (errorHandlers w).

(** A channel whose [createReadStream] hands out the stream [s]. *)
Definition streamingChannel (s : SftpStream) : SFTPWrapper unit :=
  {| sftp_readFile := fun _ _ c => (inl sftpFailure, c);
     sftp_stat := fun _ c => (inl sftpFailure, c);
     sftp_readdir := fun _ c => (inl sftpFailure, c);
     sftp_createReadStream := fun _ _ c => (inr s, c);
     sftp_end := fun c => (None, c) |}.

(** A channel that answers from a script: the state counts the calls made,
    and the first [n] calls of any kind are rejected with [e]. *)
Definition flakyChannel (n : nat) (e : JsError) (content : string) (stats : Stats)
    (items : list FileEntry) : SFTPWrapper nat :=
  {| sftp_readFile := fun _ _ c =>
       (if (c <? n)%nat then inl e else inr content, S c);
     sftp_stat := fun _ c => (if (c <? n)%nat then inl e else inr stats, S c);
     sftp_readdir := fun _ c => (if (c <? n)%nat then inl e else inr items, S c);
     sftp_createReadStream := fun _ _ c => (inl e, S c);
     sftp_end := fun c => (None, c) |}.

Definition regularFile : Stats := MkStats 33188 120 (Some 1700000000).
Definition directory : Stats := MkStats 16877 4096 None.

Definition listing : list FileEntry :=
  [MkFileEntry "rules" (MkAttrs 16877 (Some 4096) (Some 1700000000));
   MkFileEntry "CLAUDE.md" (MkAttrs 33188 (Some 120) None)].

End Ssh.

(** * Renderer: snapshot store and context slice *)
Module Renderer.

(** ** Data

    The entity types ([Project], [RepositoryGroup], [Session],
    [DetectedError], [Tab], [Pane], [PaneLayout], [ContextInfo]) are
    declared in type files that are not at hand. Each is given the fields
    the code below reads or builds, and one field standing for the rest of
    the object where there is more to it. *)

(** Modelled from the spec: a project of the fresh entity lists, of which
    only the id is read. *)
Record Project := MkProject {
  project_id : string;
  project_rest : string
}.

(** Modelled from the spec: a worktree (the spec's workspace) of a
    repository group, of which only the id is read. *)
Record Worktree := MkWorktree {
  worktree_id : string;
  worktree_rest : string
}.

(** Modelled from the spec: a repository group of the fresh entity lists,
    of which only the worktrees are read. *)
Record RepositoryGroup := MkRepositoryGroup {
  repo_id : string;
  worktrees : list Worktree
}.

(** Modelled from the spec: a session of the listing, copied as it is. *)
Record Session := MkSession { session_id : string }.

(** Modelled from the spec: a notification, copied as it is. *)
Record DetectedError := MkDetectedError { detected_id : string }.

(** Modelled from the spec: an open view. The code reads [id], [type]
    (compared with ['session']) and [projectId] (tested for truthiness) of
    any tab alike. *)
Record Tab := MkTab {
  tab_id : string;
  tab_type : string;
  tab_projectId : option string;
  tab_rest : string
}.

(** Modelled from the spec: a layout region, with the fields of the
    default pane that [validateSnapshot] and [getEmptyContextState] write
    out. *)
Record Pane := MkPane {
  pane_id : string;
  pane_tabs : list Tab;
  pane_activeTabId : option string;
  pane_selectedTabIds : list string;
  pane_widthFraction : Q
}.

(** Modelled from the spec: the layout, its regions and the focused one. *)
Record PaneLayout := MkPaneLayout {
  panes : list Pane;
  focusedPaneId : string
}.

Inductive ViewMode := flat | grouped.

(** The twenty fields that [ContextSnapshot] and [AppState] have in common
    and that [captureSnapshot] copies and [validateSnapshot] gives back. *)
Record Workspace := MkWorkspace {
  projects : list Project;
  selectedProjectId : option string;
  repositoryGroups : list RepositoryGroup;
  selectedRepositoryId : option string;
  selectedWorktreeId : option string;
  viewMode : ViewMode;
  sessions : list Session;
  selectedSessionId : option string;
  sessionsCursor : option string;
  sessionsHasMore : bool;
  sessionsTotalCount : Z;
  pinnedSessionIds : list string;
  notifications : list DetectedError;
  unreadCount : Z;
  openTabs : list Tab;
  activeTabId : option string;
  selectedTabIds : list string;
  activeProjectId : option string;
  paneLayout : PaneLayout;
  sidebarCollapsed : bool
}.

Record Metadata := MkMetadata {
  meta_contextId : string;
  meta_capturedAt : Z;
  meta_version : Z
}.

Record ContextSnapshot := MkContextSnapshot {
  fields : Workspace;
  _metadata : Metadata
}.

Record StoredSnapshot := MkStoredSnapshot {
  snapshot : ContextSnapshot;
  timestamp : Z;
  version : Z
}.

(** Modelled from the spec: an available context, [{ id, type }] in the
    initial state of the slice. *)
Record ContextInfo := MkContextInfo {
  ctx_id : string;
  ctx_type : string
}.

(** The part of the zustand store that the context slice reads and writes:
    the workspace fields and the slice's own state. *)
Record AppState := MkAppState {
  workspace : Workspace;
  activeContextId : string;
  isContextSwitching : bool;
  targetContextId : option string;
  contextSnapshotsReady : bool;
  availableContexts : list ContextInfo
}.

(** ** contextStorage *)

Definition SNAPSHOT_TTL_MS : Z := 5 * 60 * 1000.
Definition STORAGE_KEY_PREFIX : string := "context-snapshot:".
Definition SNAPSHOT_VERSION : Z := 1.

(** IndexedDB behind idb-keyval, and the clock. A [*_throws] field says for
    which keys the operation rejects, and with what. Time stands still
    within one operation. *)
Record Idb := MkIdb {
  entries : gmap string StoredSnapshot;
  now : Z;
  get_throws : string -> option JsError;
  set_throws : string -> option JsError;
  del_throws : string -> option JsError
}.

Definition setEntries (m : gmap string StoredSnapshot) (db : Idb) : Idb :=
  MkIdb m (now db) (get_throws db) (set_throws db) (del_throws db).

Definition idb_get (key : string) (db : Idb) : outcome (option StoredSnapshot) :=
  match get_throws db key with
  | Some e => Thrown e
  | None => Returned (entries db !! key)
  end.

Definition idb_set (key : string) (value : StoredSnapshot) (db : Idb)
    : outcome unit * Idb :=
  match set_throws db key with
  | Some e => (Thrown e, db)
  | None => (Returned tt, setEntries (<[key := value]> (entries db)) db)
  end.

Definition idb_del (key : string) (db : Idb) : outcome unit * Idb :=
  match del_throws db key with
  | Some e => (Thrown e, db)
  | None => (Returned tt, setEntries (delete key (entries db)) db)
  end.

(** The [catch] arms only log. *)
Definition saveSnapshot (contextId : string) (snapshot : ContextSnapshot)
    (db : Idb) : Idb :=
  let stored :=
    {| snapshot := snapshot; timestamp := now db; version := SNAPSHOT_VERSION |} in
  let key := STORAGE_KEY_PREFIX +:+ contextId in
  snd (idb_set key stored db).

Definition deleteSnapshot (contextId : string) (db : Idb) : Idb :=
  let key := STORAGE_KEY_PREFIX +:+ contextId in
  snd (idb_del key db).

(** [void deleteSnapshot(contextId)] issues the deletion before
    [loadSnapshot] returns; it is applied on the spot here. *)
Definition loadSnapshot (contextId : string) (db : Idb)
    : option ContextSnapshot * Idb :=
  let key := STORAGE_KEY_PREFIX +:+ contextId in
  match idb_get key db with
  | Thrown _ => (None, db)
  | Returned None => (None, db)
  | Returned (Some stored) =>
      let age := now db - timestamp stored in
      if age >? SNAPSHOT_TTL_MS then (None, deleteSnapshot contextId db)
      else if negb (version stored =? SNAPSHOT_VERSION)
      then (None, deleteSnapshot contextId db)
      else (Some (snapshot stored), db)
  end.

(** ** Context slice: helpers *)

Definition defaultPane : Pane :=
  {| pane_id := "pane-default";
     pane_tabs := [];
     pane_activeTabId := None;
     pane_selectedTabIds := [];
     pane_widthFraction := 1%Q |}.

(** [set.has(x)] for an [x] that may be null. *)
Definition has (s : gset string) (x : option string) : bool :=
  match x with
  | Some v => bool_decide (v ∈ s)
  | None => false
  end.

Definition validProjectIdsOf (freshProjects : list Project) : gset string :=
  list_to_set (project_id <$> freshProjects).

Definition validWorktreeIdsOf (freshRepoGroups : list RepositoryGroup)
    : gset string :=
  list_to_set (freshRepoGroups ≫= (fun rg => worktree_id <$> worktrees rg)).

(** The predicate both tab filters of [validateSnapshot] apply. *)
Definition keepTab (validProjectIds validWorktreeIds : gset string) (tab : Tab)
    : bool :=
  if String.eqb (tab_type tab) "session" && truthy (tab_projectId tab)
  then has validProjectIds (tab_projectId tab)
       || has validWorktreeIds (tab_projectId tab)
  else true.

(** [tabs.find((t) => t.id === id)] is truthy, [tabs.some(...)] is true. *)
Definition hasTabWithId (tabs : list Tab) (id : option string) : bool :=
  match id with
  | Some i => existsb (fun t => String.eqb (tab_id t) i) tabs
  | None => false
  end.

Definition firstTabId (tabs : list Tab) : option string := tab_id <$> head tabs.

Definition validatePane (validProjectIds validWorktreeIds : gset string)
    (pane : Pane) : Pane :=
  let paneTabs := filter (fun tab => keepTab validProjectIds validWorktreeIds tab)
                    (pane_tabs pane) in
  let paneActiveId :=
    if hasTabWithId paneTabs (pane_activeTabId pane) then pane_activeTabId pane
    else firstTabId paneTabs in
  {| pane_id := pane_id pane;
     pane_tabs := paneTabs;
     pane_activeTabId := paneActiveId;
     pane_selectedTabIds :=
       filter (fun id => hasTabWithId paneTabs (Some id)) (pane_selectedTabIds pane);
     pane_widthFraction := pane_widthFraction pane |}.

Definition hasPaneWithId (ps : list Pane) (id : string) : bool :=
  existsb (fun p => String.eqb (pane_id p) id) ps.

(** The TypeError of reading [.id] of [undefined]. *)
Definition TypeError : JsError :=
  MkJsError true CodeAbsent "Cannot read properties of undefined (reading 'id')".

(** The three lists [validateSnapshot] builds on the way: [validTabs],
    [validatedPanes] and [finalPanes]. *)
Definition validTabsOf (snapshot : ContextSnapshot)
    (freshProjects : list Project) (freshRepoGroups : list RepositoryGroup)
    : list Tab :=
  filter (fun tab => keepTab (validProjectIdsOf freshProjects)
                       (validWorktreeIdsOf freshRepoGroups) tab)
    (openTabs (fields snapshot)).

Definition validatedPanesOf (snapshot : ContextSnapshot)
    (freshProjects : list Project) (freshRepoGroups : list RepositoryGroup)
    : list Pane :=
  filter (fun pane => bool_decide (0 < length (pane_tabs pane))%nat)
    (validatePane (validProjectIdsOf freshProjects)
       (validWorktreeIdsOf freshRepoGroups)
     <$> panes (paneLayout (fields snapshot))).

Definition finalPanesOf (snapshot : ContextSnapshot)
    (freshProjects : list Project) (freshRepoGroups : list RepositoryGroup)
    : list Pane :=
  let validatedPanes := validatedPanesOf snapshot freshProjects freshRepoGroups in
  if bool_decide (0 < length validatedPanes)%nat then validatedPanes
  else [defaultPane].

(** [finalPanes[0].id] throws when there is no first pane. *)
Definition validateSnapshot (snapshot : ContextSnapshot)
    (freshProjects : list Project) (freshRepoGroups : list RepositoryGroup)
    : outcome Workspace :=
  let snap := fields snapshot in
  let validProjectIds := validProjectIdsOf freshProjects in
  let validWorktreeIds := validWorktreeIdsOf freshRepoGroups in
  let selectedProjectId' :=
    if truthy (selectedProjectId snap) && has validProjectIds (selectedProjectId snap)
    then selectedProjectId snap else None in
  let selectedRepositoryId' := selectedRepositoryId snap in
  let selectedWorktreeId' :=
    if truthy (selectedWorktreeId snap) && has validWorktreeIds (selectedWorktreeId snap)
    then selectedWorktreeId snap else None in
  let validTabs := validTabsOf snapshot freshProjects freshRepoGroups in
  let activeTabId' :=
    if truthy (activeTabId snap) && negb (hasTabWithId validTabs (activeTabId snap))
    then firstTabId validTabs else activeTabId snap in
  let finalPanes := finalPanesOf snapshot freshProjects freshRepoGroups in
  let focused := focusedPaneId (paneLayout snap) in
  let focusedPaneId' :=
    if hasPaneWithId finalPanes focused then Returned focused
    else match head finalPanes with
         | Some p => Returned (pane_id p)
         | None => Thrown TypeError
         end in
  match focusedPaneId' with
  | Thrown e => Thrown e
  | Returned focusedId =>
      Returned
        {| projects := freshProjects;
           selectedProjectId := selectedProjectId';
           repositoryGroups := freshRepoGroups;
           selectedRepositoryId := selectedRepositoryId';
           selectedWorktreeId := selectedWorktreeId';
           viewMode := viewMode snap;
           sessions := sessions snap;
           selectedSessionId := selectedSessionId snap;
           sessionsCursor := sessionsCursor snap;
           sessionsHasMore := sessionsHasMore snap;
           sessionsTotalCount := sessionsTotalCount snap;
           pinnedSessionIds := pinnedSessionIds snap;
           notifications := notifications snap;
           unreadCount := unreadCount snap;
           openTabs := validTabs;
           activeTabId := activeTabId';
           selectedTabIds :=
             filter (fun id => hasTabWithId validTabs (Some id)) (selectedTabIds snap);
           activeProjectId :=
             if truthy (activeProjectId snap)
                && (has validProjectIds (activeProjectId snap)
                    || has validWorktreeIds (activeProjectId snap))
             then activeProjectId snap else selectedProjectId';
           paneLayout := {| panes := finalPanes; focusedPaneId := focusedId |};
           sidebarCollapsed := sidebarCollapsed snap |}
  end.

Definition captureSnapshot (state : AppState) (contextId : string) (dateNow : Z)
    : ContextSnapshot :=
  {| fields := workspace state;
     _metadata := {| meta_contextId := contextId;
                     meta_capturedAt := dateNow;
                     meta_version := 1 |} |}.

(** ** Context slice: switchContext *)

(** The calls [switchContext] makes to its collaborators, in order. *)
Inductive Call :=
| CallSaveSnapshot (contextId : string)
| CallContextSwitch (targetContextId : string)
| CallGetProjects
| CallGetRepositoryGroups
| CallLoadSnapshot (contextId : string)
| CallFetchNotifications.

Section Slice.

(** Everything outside the store: IndexedDB, the main process, the clock. *)
Variable Ext : Type.

(** The collaborators as [switchContext] sees them: promises that resolve
    or reject. [svc_fetchNotifications] is the store action of another
    slice, started and not awaited. *)
Record Services := MkServices {
  svc_dateNow : Ext -> Z;
  svc_saveSnapshot : string -> ContextSnapshot -> Ext -> outcome unit * Ext;
  svc_loadSnapshot : string -> Ext -> outcome (option ContextSnapshot) * Ext;
  svc_context_switch : string -> Ext -> outcome unit * Ext;
  svc_getProjects : Ext -> outcome (list Project) * Ext;
  svc_getRepositoryGroups : Ext -> outcome (list RepositoryGroup) * Ext;
  svc_fetchNotifications : Ext -> outcome unit * Ext
}.

Variable svc : Services.

(** [getFullResetState] is defined in stateResetHelpers, outside the files
    at hand: the variable is what merging its result does to the workspace
    fields. *)
Variable getFullResetState : Workspace -> Workspace.

Record World := MkWorld {
  store : AppState;
  ext : Ext;
  calls : list Call
}.

Definition M (A : Type) : Type := World -> outcome A * World.

Definition ret {A} (a : A) : M A := fun w => (Returned a, w).

Definition bind {A B} (m : M A) (k : A -> M B) : M B :=
  fun w =>
    match m w with
    | (Returned a, w1) => k a w1
    | (Thrown e, w1) => (Thrown e, w1)
    end.

Definition settle {A} (o : outcome A) : M A := fun w => (o, w).

(** [await] of a collaborator's promise. *)
Definition invoke {A} (c : Call) (op : Ext -> outcome A * Ext) : M A :=
  fun w =>
    let '(r, x) := op (ext w) in
    (r, {| store := store w; ext := x; calls := calls w ++ [c] |}).

(** zustand's [set] with an updater for the fields it names. *)
Definition set (f : AppState -> AppState) : M unit :=
  fun w => (Returned tt, {| store := f (store w); ext := ext w; calls := calls w |}).

Definition setWorkspace (ws : Workspace) (s : AppState) : AppState :=
  MkAppState ws (activeContextId s) (isContextSwitching s) (targetContextId s)
    (contextSnapshotsReady s) (availableContexts s).

Definition beginSwitch (targetContextId : string) (s : AppState) : AppState :=
  MkAppState (workspace s) (activeContextId s) true (Some targetContextId)
    (contextSnapshotsReady s) (availableContexts s).

Definition finalizeSwitch (targetContextId : string) (s : AppState) : AppState :=
  MkAppState (workspace s) targetContextId false None
    (contextSnapshotsReady s) (availableContexts s).

Definition abandonSwitch (s : AppState) : AppState :=
  MkAppState (workspace s) (activeContextId s) false None
    (contextSnapshotsReady s) (availableContexts s).

(** [{ ...getEmptyContextState(), projects: freshProjects,
       repositoryGroups: freshRepoGroups }] merged into the workspace. *)
Definition emptyContextState (freshProjects : list Project)
    (freshRepoGroups : list RepositoryGroup) (ws : Workspace) : Workspace :=
  let r := getFullResetState ws in
  {| projects := freshProjects;
     selectedProjectId := selectedProjectId r;
     repositoryGroups := freshRepoGroups;
     selectedRepositoryId := selectedRepositoryId r;
     selectedWorktreeId := selectedWorktreeId r;
     viewMode := viewMode r;
     sessions := [];
     selectedSessionId := selectedSessionId r;
     sessionsCursor := sessionsCursor r;
     sessionsHasMore := sessionsHasMore r;
     sessionsTotalCount := sessionsTotalCount r;
     pinnedSessionIds := pinnedSessionIds r;
     notifications := [];
     unreadCount := 0;
     openTabs := [];
     activeTabId := None;
     selectedTabIds := [];
     activeProjectId := None;
     paneLayout := {| panes := [defaultPane]; focusedPaneId := "pane-default" |};
     sidebarCollapsed := sidebarCollapsed r |}.

(** [Promise.all([getProjects(), getRepositoryGroups()])]: both calls are
    made; a rejection of either rejects the whole. *)
Definition fetchFresh : M (list Project * list RepositoryGroup) :=
  fun w =>
    match invoke CallGetProjects (svc_getProjects svc) w with
    | (p, w1) =>
        match invoke CallGetRepositoryGroups (svc_getRepositoryGroups svc) w1 with
        | (g, w2) =>
            match p, g with
            | Returned freshProjects, Returned freshRepoGroups =>
                (Returned (freshProjects, freshRepoGroups), w2)
            | Thrown e, _ => (Thrown e, w2)
            | _, Thrown e => (Thrown e, w2)
            end
        end
    end.

(** Steps 4 to 4b: restore the validated snapshot or apply the empty
    state. *)
Definition restore (targetSnapshot : option ContextSnapshot)
    (freshProjects : list Project) (freshRepoGroups : list RepositoryGroup)
    : M unit :=
  match targetSnapshot with
  | Some s =>
      bind (settle (validateSnapshot s freshProjects freshRepoGroups))
        (fun validatedState => set (setWorkspace validatedState))
  | None =>
      set (fun st =>
             setWorkspace (emptyContextState freshProjects freshRepoGroups
                             (workspace st)) st)
  end.

(** The [try] block. [state] is the store as read on entry. *)
Definition switchSteps (state : AppState) (targetContextId : string) : M unit :=
  bind (fun w => (Returned (svc_dateNow svc (ext w)), w)) (fun dateNow =>
  let currentSnapshot := captureSnapshot state (activeContextId state) dateNow in
  bind (invoke (CallSaveSnapshot (activeContextId state))
          (svc_saveSnapshot svc (activeContextId state) currentSnapshot)) (fun _ =>
  bind (invoke (CallContextSwitch targetContextId)
          (svc_context_switch svc targetContextId)) (fun _ =>
  bind fetchFresh (fun fresh =>
  bind (invoke (CallLoadSnapshot targetContextId)
          (svc_loadSnapshot svc targetContextId)) (fun targetSnapshot =>
  bind (restore targetSnapshot fresh.1 fresh.2) (fun _ =>
  bind (invoke CallFetchNotifications (svc_fetchNotifications svc)) (fun _ =>
  set (finalizeSwitch targetContextId)))))))).

Definition switchContext (targetContextId : string) (w : World) : World :=
  let state := store w in
  if String.eqb targetContextId (activeContextId state) then w
  else
    match bind (set (beginSwitch targetContextId))
            (fun _ => switchSteps state targetContextId) w with
    | (Returned _, w1) => w1
    | (Thrown _, w1) => snd (set abandonSwitch w1)
    end.

(** Whether the [try] block of a switch throws, and what. *)
Definition switchFailure (targetContextId : string) (w : World) : option JsError :=
  match bind (set (beginSwitch targetContextId))
          (fun _ => switchSteps (store w) targetContextId) w with
  | (Returned _, _) => None
  | (Thrown e, _) => Some e
  end.

(** ** ContextSwitcher and WorkspaceIndicator

    Both components hold [isOpen] and render alike: the trigger button is
    disabled while [isContextSwitching], and the items, one per available
    context, exist only when [isOpen && !isContextSwitching]. *)
Inductive UiEvent :=
| ClickTrigger
| ClickBackdrop
| SelectItem (contextId : string).

Definition itemRendered (isOpen : bool) (s : AppState) (contextId : string) : bool :=
  isOpen && negb (isContextSwitching s)
  && existsb (fun c => String.eqb (ctx_id c) contextId) (availableContexts s).

Definition handleUiEvent (ev : UiEvent) (isOpen : bool) (w : World) : bool * World :=
  match ev with
  | ClickTrigger =>
      if isContextSwitching (store w) then (isOpen, w) else (negb isOpen, w)
  | ClickBackdrop =>
      if isOpen && negb (isContextSwitching (store w)) then (false, w)
      else (isOpen, w)
  | SelectItem contextId =>
      if itemRendered isOpen (store w) contextId
      then (false, switchContext contextId w)
      else (isOpen, w)
  end.

End Slice.

Arguments MkWorld {Ext}.
Arguments store {Ext} w.
Arguments ext {Ext} w.
Arguments calls {Ext} w.
Arguments MkServices {Ext}.
Arguments svc_dateNow {Ext} s x.
Arguments svc_saveSnapshot {Ext} s contextId snapshot x.
Arguments svc_loadSnapshot {Ext} s contextId x.
Arguments svc_context_switch {Ext} s targetContextId x.
Arguments svc_getProjects {Ext} s x.
Arguments svc_getRepositoryGroups {Ext} s x.
Arguments svc_fetchNotifications {Ext} s x.
Arguments M Ext A : clear implicits.
Arguments ret {Ext A} a w.
Arguments bind {Ext A B} m k w.
Arguments settle {Ext A} o w.
Arguments invoke {Ext A} c op w.
Arguments set {Ext} f w.
Arguments fetchFresh {Ext} svc w.
Arguments restore {Ext} getFullResetState targetSnapshot freshProjects
  freshRepoGroups w.
Arguments switchSteps {Ext} svc getFullResetState state targetContextId w.
Arguments switchContext {Ext} svc getFullResetState targetContextId w.
Arguments switchFailure {Ext} svc getFullResetState targetContextId w.
Arguments handleUiEvent {Ext} svc getFullResetState ev isOpen w.

(** ** The collaborators at hand

    [contextStorage] as defined above, and a main process that answers as
    scripted: what switching to a context gives, and what the two fetches
    and the notification fetch give. *)
Record Backend := MkBackend {
  switch_result : string -> outcome unit;
  projects_result : outcome (list Project);
  repositoryGroups_result : outcome (list RepositoryGroup);
  fetchNotifications_result : outcome unit
}.

Record Env := MkEnv {
  idb : Idb;
  backend : Backend
}.

Definition setIdb (db : Idb) (env : Env) : Env := MkEnv db (backend env).

Definition services : Services Env :=
  {| svc_dateNow := fun env => now (idb env);
     svc_saveSnapshot := fun contextId snapshot env =>
       (Returned tt, setIdb (saveSnapshot contextId snapshot (idb env)) env);
     svc_loadSnapshot := fun contextId env =>
       let '(r, db) := loadSnapshot contextId (idb env) in (Returned r, setIdb db env);
     svc_context_switch := fun target env => (switch_result (backend env) target, env);
     svc_getProjects := fun env => (projects_result (backend env), env);
     svc_getRepositoryGroups := fun env => (repositoryGroups_result (backend env), env);
     svc_fetchNotifications := fun env => (fetchNotifications_result (backend env), env) |}.

(** ** Worked data

    A store as the slices create it, a healthy IndexedDB, and main
    processes that answer or refuse. *)
Definition emptyWorkspace : Workspace :=
  {| projects := [];
     selectedProjectId := None;
     repositoryGroups := [];
     selectedRepositoryId := None;
     selectedWorktreeId := None;
     viewMode := flat;
     sessions := [];
     selectedSessionId := None;
     sessionsCursor := None;
     sessionsHasMore := false;
     sessionsTotalCount := 0;
     pinnedSessionIds := [];
     notifications := [];
     unreadCount := 0;
     openTabs := [];
     activeTabId := None;
     selectedTabIds := [];
     activeProjectId := None;
     paneLayout := {| panes := [defaultPane]; focusedPaneId := "pane-default" |};
     sidebarCollapsed := false |}.

(** The initial state of the slice, with two contexts known. *)
Definition initialState : AppState :=
  {| workspace := emptyWorkspace;
     activeContextId := "local";
     isContextSwitching := false;
     targetContextId := None;
     contextSnapshotsReady := false;
     availableContexts :=
       [MkContextInfo "local" "local"; MkContextInfo "ssh-db1" "ssh";
        MkContextInfo "ssh-db2" "ssh"] |}.

Definition healthyIdb (m : gmap string StoredSnapshot) (t : Z) : Idb :=
  {| entries := m;
     now := t;
     get_throws := fun _ => None;
     set_throws := fun _ => None;
     del_throws := fun _ => None |}.

Definition answeringBackend : Backend :=
  {| switch_result := fun _ => Returned tt;
     projects_result := Returned [MkProject "p1" "alpha"];
     repositoryGroups_result := Returned [];
     fetchNotifications_result := Returned tt |}.

Definition ipcError : JsError := MkJsError true CodeAbsent "context not found".

Definition refusingBackend : Backend :=
  {| switch_result := fun _ => Thrown ipcError;
     projects_result := Returned [];
     repositoryGroups_result := Returned [];
     fetchNotifications_result := Returned tt |}.

(** An IndexedDB that rejects every operation. *)
Definition brokenIdb : Idb :=
  {| entries := ∅;
     now := 1000;
     get_throws := fun _ => Some (MkJsError true CodeAbsent "QuotaExceededError");
     set_throws := fun _ => Some (MkJsError true CodeAbsent "QuotaExceededError");
     del_throws := fun _ => Some (MkJsError true CodeAbsent "QuotaExceededError") |}.

Definition worldOf (s : AppState) (b : Backend) : World Env :=
  MkWorld s (MkEnv (healthyIdb ∅ 1000) b) [].

(** A reset that clears every workspace field. *)
Definition resetAll (ws : Workspace) : Workspace := emptyWorkspace.

(** The store as a switch to "ssh-db1" leaves it while it awaits its first
    step. *)
Definition midSwitchWorld : World Env :=
  worldOf (beginSwitch "ssh-db1" initialState) answeringBackend.

(** A snapshot of the empty workspace taken at [t]. *)
Definition snapshotAt (contextId : string) (t : Z) : ContextSnapshot :=
  {| fields := emptyWorkspace;
     _metadata := MkMetadata contextId t 1 |}.

(** A record stored for "ssh-db1" at time 1000, and IndexedDB six minutes
    later. *)
Definition storedAt1000 : StoredSnapshot :=
  MkStoredSnapshot (snapshotAt "ssh-db1" 1000) 1000 1.

Definition idbSixMinutesLater : Idb :=
  healthyIdb {[ "context-snapshot:ssh-db1" := storedAt1000 ]}
    (1000 + 6 * 60 * 1000).

(** A dashboard tab that carries the id of a project, a session tab for
    the same project, and a snapshot holding both in one pane. *)
Definition dashboardTab : Tab := MkTab "t1" "dashboard" (Some "gone") "Dashboard".
Definition sessionTab : Tab := MkTab "t2" "session" (Some "gone") "Session".

Definition staleSnapshot : ContextSnapshot :=
  {| fields :=
       MkWorkspace [] (Some "gone") [] (Some "repo-gone") None flat [] None None
         false 0 [] [] 0 [dashboardTab; sessionTab] (Some "t2") ["t1"; "t2"]
         (Some "gone")
         (MkPaneLayout
            [MkPane "pane-a" [sessionTab] (Some "t2") ["t2"] (1 # 2)%Q;
             MkPane "pane-b" [dashboardTab; sessionTab] (Some "t2") ["t2"]
               (1 # 2)%Q]
            "pane-a")
         false;
     _metadata := MkMetadata "ssh-db1" 1000 1 |}.

Definition withTabs (tabs : list Tab) (layout : PaneLayout) (ws : Workspace)
    : Workspace :=
  MkWorkspace (projects ws) (selectedProjectId ws) (repositoryGroups ws)
    (selectedRepositoryId ws) (selectedWorktreeId ws) (viewMode ws)
    (sessions ws) (selectedSessionId ws) (sessionsCursor ws)
    (sessionsHasMore ws) (sessionsTotalCount ws) (pinnedSessionIds ws)
    (notifications ws) (unreadCount ws) tabs (tab_id <$> head tabs) []
    (activeProjectId ws) layout (sidebarCollapsed ws).

(** The collaborators at hand with a notification fetch that is an async
    function: calling it returns a promise, whatever comes of it later. *)
Definition servicesAsyncFetch : Services Env :=
  {| svc_dateNow := svc_dateNow services;
     svc_saveSnapshot := svc_saveSnapshot services;
     svc_loadSnapshot := svc_loadSnapshot services;
     svc_context_switch := svc_context_switch services;
     svc_getProjects := svc_getProjects services;
     svc_getRepositoryGroups := svc_getRepositoryGroups services;
     svc_fetchNotifications := fun env => (Returned tt, env) |}.

(** ** contextStorage: the sweep *)

(** The clock moving to [t]. *)
Definition setNow (t : Z) (db : Idb) : Idb :=
  MkIdb (entries db) t (get_throws db) (set_throws db) (del_throws db).

(** [k.startsWith(STORAGE_KEY_PREFIX)] *)
Definition isSnapshotKey (k : string) : bool := String.prefix STORAGE_KEY_PREFIX k.

(** One turn of the loop of [cleanupExpired]: a rejection of the read or
    of the delete is caught and the key skipped. *)
Definition sweepKey (nowMs : Z) (db : Idb) (key : string) : Idb :=
  match idb_get key db with
  | Thrown _ => db
  | Returned None => db
  | Returned (Some stored) =>
      let age := nowMs - timestamp stored in
      if age >? SNAPSHOT_TTL_MS then snd (idb_del key db) else db
  end.

(** [cleanupExpired]. [keys_throws] says whether [keys()] rejects; when it
    does not it lists the keys of the store, and the outcome of the sweep
    does not depend on their order. *)
Definition cleanupExpired (keys_throws : option JsError) (db : Idb) : Idb :=
  match keys_throws with
  | Some _ => db
  | None =>
      let allKeys := elements (dom (entries db)) in
      let snapshotKeys := filter (fun k => isSnapshotKey k) allKeys in
      let nowMs := now db in
      foldl (sweepKey nowMs) db snapshotKeys
  end.

(** Whether a turn of the sweep on the key removes its record. *)
Definition swept (nowMs : Z) (db : Idb) (key : string) : bool :=
  match get_throws db key, entries db !! key, del_throws db key with
  | None, Some stored, None => nowMs - timestamp stored >? SNAPSHOT_TTL_MS
  | _, _, _ => false
  end.

(** A store with a record that has expired, one that has not, and one
    under a key that is not a snapshot key. *)
Definition mixedIdb : Idb :=
  healthyIdb
    (<[ "context-snapshot:ssh-db1" := MkStoredSnapshot (snapshotAt "ssh-db1" 1000) 1000 1 ]>
       (<[ "context-snapshot:local" := MkStoredSnapshot (snapshotAt "local" 321000) 321000 1 ]>
          {[ "other" := MkStoredSnapshot (snapshotAt "other" 0) 0 1 ]}))
    (1000 + 6 * 60 * 1000).

(** ** Context slice: initialisation *)

Section Init.

Variable Ext : Type.

(** The collaborators of [initializeContextSystem] and
    [fetchAvailableContexts]: [contextStorage.isAvailable],
    [contextStorage.cleanupExpired] (started and not awaited), and the
    [context.getActive] and [context.list] calls to the main process. These
    calls are not entered in the call log. *)
Record InitServices := MkInitServices {
  init_isAvailable : Ext -> outcome bool * Ext;
  init_cleanupExpired : Ext -> Ext;
  init_getActive : Ext -> outcome string * Ext;
  init_list : Ext -> outcome (list ContextInfo) * Ext
}.

Variable isvc : InitServices.

Definition setAvailableContexts (l : list ContextInfo) (s : AppState) : AppState :=
  MkAppState (workspace s) (activeContextId s) (isContextSwitching s)
    (targetContextId s) (contextSnapshotsReady s) l.

Definition fetchAvailableContexts (w : World Ext) : World Ext :=
  match init_list isvc (ext w) with
  | (Returned result, x) =>
      MkWorld (setAvailableContexts result (store w)) x (calls w)
  | (Thrown _, x) =>
      MkWorld (setAvailableContexts [MkContextInfo "local" "local"] (store w)) x
        (calls w)
  end.

Definition markReady (s : AppState) : AppState :=
  MkAppState (workspace s) (activeContextId s) (isContextSwitching s)
    (targetContextId s) true (availableContexts s).

Definition markReadyOn (activeContextId : string) (s : AppState) : AppState :=
  MkAppState (workspace s) activeContextId (isContextSwitching s)
    (targetContextId s) true (availableContexts s).

Definition initializeContextSystem (w : World Ext) : World Ext :=
  match init_isAvailable isvc (ext w) with
  | (Thrown _, x) => MkWorld (markReady (store w)) x (calls w)
  | (Returned available, x) =>
      let x1 := if available then init_cleanupExpired isvc x else x in
      match init_getActive isvc x1 with
      | (Thrown _, x2) => MkWorld (markReady (store w)) x2 (calls w)
      | (Returned activeContextId, x2) =>
          fetchAvailableContexts
            (MkWorld (markReadyOn activeContextId (store w)) x2 (calls w))
      end
  end.

End Init.

Arguments MkInitServices {Ext}.
Arguments init_isAvailable {Ext} i x.
Arguments init_cleanupExpired {Ext} i x.
Arguments init_getActive {Ext} i x.
Arguments init_list {Ext} i x.
Arguments fetchAvailableContexts {Ext} isvc w.
Arguments initializeContextSystem {Ext} isvc w.

(** ** ContextSwitcher and ConnectionStatusBadge: labels and icons *)

Definition getContextLabel (contextId : string) : string :=
  if String.eqb contextId "local" then "Local"
  else if String.prefix "ssh-" contextId then slice 4 contextId
  else contextId.

Inductive Icon := Monitor | Wifi | Loader2 | WifiOff.
Inductive Tone := muted | green | red.

(** The icon [ConnectionStatusBadge] renders. [connectedHost] is a string
    or null, and the template literal prints null as "null". *)
Definition connectionStatusBadge (contextId : string) (connectionState : string)
    (connectedHost : option string) : Icon * Tone :=
  if String.eqb contextId "local" then (Monitor, muted)
  else
    let isConnectedToThisHost :=
      String.eqb contextId ("ssh-" +:+ default "null" connectedHost) in
    let effectiveState :=
      if isConnectedToThisHost then connectionState else "disconnected" in
    if String.eqb effectiveState "connected" then (Wifi, green)
    else if String.eqb effectiveState "connecting" then (Loader2, muted)
    else if String.eqb effectiveState "disconnected" then (WifiOff, muted)
    else if String.eqb effectiveState "error" then (WifiOff, red)
    else (WifiOff, muted).

End Renderer.

(** * ClaudeMdReader *)
Module Reader.

Record ClaudeMdFileInfo := MkClaudeMdFileInfo {
  info_path : string;
  info_exists : bool;
  charCount : Z;
  estimatedTokens : Z
}.

(** The two methods of the FileSystemProvider interface that the functions
    below call, with the signatures [SshFileSystemProvider] implements them
    with: each returns a promise, which may reject. [readFile] is called
    without an encoding. *)
Record FileSystemProvider (W : Type) := MkFileSystemProvider {
  fs_exists : string -> W -> outcome bool * W;
  fs_readFile : string -> W -> outcome string * W
}.

Arguments MkFileSystemProvider {W}.
Arguments fs_exists {W} f filePath w.
Arguments fs_readFile {W} f filePath w.

(** [new SshFileSystemProvider(sftp)] behind the interface; the encoding
    parameter of its [readFile] takes its default. *)
Definition SshFileSystemProvider {Chan} (sftp : Ssh.SFTPWrapper Chan)
    : FileSystemProvider (Ssh.World Chan) :=
  {| fs_exists := fun filePath w =>
       let '(b, w1) := Ssh.exists_ sftp filePath w in (Returned b, w1);
     fs_readFile := fun filePath w => Ssh.readFile sftp filePath "utf8" w |}.

Definition LF : ascii := "010"%char.

(** [s.split(sep)] for a separator of one character. *)
Fixpoint split (sep : ascii) (s : string) : list string :=
  match s with
  | EmptyString => [EmptyString]
  | String c s' =>
      if Ascii.eqb c sep then EmptyString :: split sep s'
      else match split sep s' with
           | l :: ls => String c l :: ls
           | [] => [String c EmptyString]
           end
  end.

(** [l.join(sep)] *)
Fixpoint join (sep : string) (l : list string) : string :=
  match l with
  | [] => EmptyString
  | x :: rest =>
      match rest with
      | [] => x
      | _ :: _ => x +:+ sep +:+ join sep rest
      end
  end.

Section Reading.

(** What the reader takes from outside this file: [app.getPath('home')],
    Node's [path.join], [countTokens] of the tokenizer, and [encodePath] and
    [getClaudeBasePath] of pathDecoder. Nothing is assumed about them. *)
Variable homeDir : string.
Variable path_join : list string -> string.
Variable countTokens : string -> Z.
Variable encodePath : string -> string.
Variable getClaudeBasePath : string.

Variable W : Type.
Variable fsProvider : FileSystemProvider W.

Definition expandTilde (filePath : string) : string :=
  if String.prefix "~" filePath then path_join [homeDir; slice 1 filePath]
  else filePath.

(** The record returned for a file that is not there or cannot be read. *)
Definition absent (path : string) : ClaudeMdFileInfo :=
  MkClaudeMdFileInfo path false 0 0.

Definition readClaudeMdFile (filePath : string) (w : W) : ClaudeMdFileInfo * W :=
  let expandedPath := expandTilde filePath in
  match fs_exists fsProvider expandedPath w with
  | (Thrown _, w1) => (absent expandedPath, w1)
  | (Returned false, w1) => (absent expandedPath, w1)
  | (Returned true, w1) =>
      match fs_readFile fsProvider expandedPath w1 with
      | (Thrown _, w2) => (absent expandedPath, w2)
      | (Returned content, w2) =>
          (MkClaudeMdFileInfo expandedPath true
             (Z.of_nat (String.length content)) (countTokens content), w2)
      end
  end.

(** [lines.slice(0, 200).join('\n')] of [content.split('\n')] *)
Definition truncated (content : string) : string :=
  join (String LF EmptyString) (take 200 (split LF content)).

Definition memoryPathOf (projectRoot : string) : string :=
  path_join [getClaudeBasePath; "projects"; encodePath (expandTilde projectRoot);
             "memory"; "MEMORY.md"].

Definition readAutoMemoryFile (projectRoot : string) (w : W)
    : ClaudeMdFileInfo * W :=
  let memoryPath := memoryPathOf projectRoot in
  match fs_exists fsProvider memoryPath w with
  | (Thrown _, w1) => (absent memoryPath, w1)
  | (Returned false, w1) => (absent memoryPath, w1)
  | (Returned true, w1) =>
      match fs_readFile fsProvider memoryPath w1 with
      | (Thrown _, w2) => (absent memoryPath, w2)
      | (Returned content, w2) =>
          (MkClaudeMdFileInfo memoryPath true
             (Z.of_nat (String.length (truncated content)))
             (countTokens (truncated content)), w2)
      end
  end.

End Reading.

Arguments readClaudeMdFile homeDir path_join countTokens {W} fsProvider filePath w.
Arguments readAutoMemoryFile homeDir path_join countTokens encodePath
  getClaudeBasePath {W} fsProvider projectRoot w.

(** ** Worked data *)

(** Stand-ins for the outside functions, used in the worked examples only:
    segments joined with a slash, and a quarter of the length for the
    tokens. *)
Definition slashJoin (segments : list string) : string := join "/" segments.
Definition quarterTokens (content : string) : Z :=
  Z.of_nat (String.length content) / 4.

(** [n] lines, each the letter x, every one ended by a line feed. *)
Fixpoint linesOfX (n : nat) : string :=
  match n with
  | O => EmptyString
  | S n' => String "x"%char (String LF (linesOfX n'))
  end.

(** A provider over a single file: the state counts the calls made. *)
Definition oneFile (path content : string) : FileSystemProvider nat :=
  {| fs_exists := fun filePath n => (Returned (String.eqb filePath path), S n);
     fs_readFile := fun filePath n =>
       (if String.eqb filePath path then Returned content
        else Thrown (MkJsError true (CodeString "ENOENT") "no such file"), S n) |}.

End Reader.

(** * Properties of the remote provider *)
Module SshFacts.
Import Ssh.

Section Facts.

Context {Chan : Type} (sftp : SFTPWrapper Chan).

Lemma kind_eqb_eq (a b : SftpErrorKind) : SftpErrorKind_eqb a b = true ↔ a = b.
Proof. destruct a, b; simpl; split; intros; congruence. Qed.

Lemma request_rejected {A} (op : SftpOp) (path : string)
    (call : Chan → (JsError + A) * Chan) (w : World Chan) e c :
  call (chan w) = (inl e, c) →
  request op path call w = (inl e, setChan c (emit (EvSftp op path (Some e)) w)).
Proof. intros H. unfold request. by rewrite H. Qed.

(** An error that is not transient ends the loop in the iteration it
    occurs in, whatever the attempt number. *)
Lemma attemptLoop_gives_up {A B} op path (call : Chan → (JsError + A) * Chan)
    (resolve : A → B) failure remaining attempt lastError (w : World Chan) e c :
  call (chan w) = (inl e, c) →
  classifySftpError e ≠ transient →
  attemptLoop op path call resolve failure (S remaining) attempt lastError w
  = (Thrown e, setChan c (emit (EvSftp op path (Some e)) w)).
Proof.
  intros Hcall Hkind. simpl. rewrite (request_rejected _ _ _ _ _ _ Hcall).
  destruct (SftpErrorKind_eqb (classifySftpError e) transient) eqn:Hk; [|done].
  apply kind_eqb_eq in Hk. contradiction.
Qed.

(** A transient error before the last attempt: sleep, then go on. *)
Lemma attemptLoop_retries {A B} op path (call : Chan → (JsError + A) * Chan)
    (resolve : A → B) failure remaining attempt lastError (w : World Chan) e c :
  call (chan w) = (inl e, c) →
  classifySftpError e = transient →
  attempt < MAX_RETRIES →
  attemptLoop op path call resolve failure (S remaining) attempt lastError w
  = attemptLoop op path call resolve failure remaining (attempt + 1) (Some e)
      (sleep (RETRY_BASE_DELAY_MS * attempt)
         (setChan c (emit (EvSftp op path (Some e)) w))).
Proof.
  intros Hcall Hkind Hlt. simpl. rewrite (request_rejected _ _ _ _ _ _ Hcall).
  rewrite Hkind. simpl.
  destruct (attempt <? MAX_RETRIES) eqn:Hb; [done|].
  apply Z.ltb_ge in Hb. lia.
Qed.

(** From the last attempt on, a rejection is thrown as it is. *)
Lemma attemptLoop_last {A B} op path (call : Chan → (JsError + A) * Chan)
    (resolve : A → B) failure remaining attempt lastError (w : World Chan) e c :
  call (chan w) = (inl e, c) →
  MAX_RETRIES ≤ attempt →
  attemptLoop op path call resolve failure (S remaining) attempt lastError w
  = (Thrown e, setChan c (emit (EvSftp op path (Some e)) w)).
Proof.
  intros Hcall Hge. simpl. rewrite (request_rejected _ _ _ _ _ _ Hcall).
  destruct (attempt <? MAX_RETRIES) eqn:Hb.
  - apply Z.ltb_lt in Hb. lia.
  - by rewrite andb_false_r.
Qed.

Lemma attemptLoop_resolves {A B} op path (call : Chan → (JsError + A) * Chan)
    (resolve : A → B) failure remaining attempt lastError (w : World Chan) a c :
  call (chan w) = (inr a, c) →
  attemptLoop op path call resolve failure (S remaining) attempt lastError w
  = (Returned (resolve a), setChan c (emit (EvSftp op path None) w)).
Proof. intros Hcall. simpl. unfold request. by rewrite Hcall. Qed.

(** The loop as the three operations enter it, against a channel that
    answers every call with a transient error. *)
Lemma attemptLoop_exhausted {A B} op path (call : Chan → (JsError + A) * Chan)
    (resolve : A → B) failure (w : World Chan) :
  (∀ c, ∃ e, rejectionOf (call c).1 = Some e ∧ classifySftpError e = transient) →
  ∃ e1 e2 e3 w',
    attemptLoop op path call resolve failure (Z.to_nat MAX_RETRIES) 1 None w
    = (Thrown e3, w')
    ∧ classifySftpError e1 = transient
    ∧ classifySftpError e2 = transient
    ∧ classifySftpError e3 = transient
    ∧ log w' = log w ++ [EvSftp op path (Some e1); EvSleep 75;
                         EvSftp op path (Some e2); EvSleep 150;
                         EvSftp op path (Some e3)].
Proof.
  intros Hall.
  assert (Hall' : ∀ c, ∃ e c', call c = (inl e, c')
                               ∧ classifySftpError e = transient).
  { intros c. destruct (Hall c) as (e & He & Hk).
    destruct (call c) as [[e'|a] c'] eqn:Hc; simpl in He; [|done].
    exists e, c'. by simplify_eq. }
  destruct (Hall' (chan w)) as (e1 & c1 & H1 & K1).
  destruct (Hall' c1) as (e2 & c2 & H2 & K2).
  destruct (Hall' c2) as (e3 & c3 & H3 & K3).
  change (Z.to_nat MAX_RETRIES) with 3%nat.
  rewrite (attemptLoop_retries _ _ _ _ _ _ _ _ _ _ _ H1 K1) by (unfold MAX_RETRIES; lia).
  rewrite (attemptLoop_retries _ _ _ _ _ _ _ _ _ e2 c2) by (done || unfold MAX_RETRIES; lia).
  rewrite (attemptLoop_last _ _ _ _ _ _ _ _ _ e3 c3) by (done || unfold MAX_RETRIES; lia).
  exists e1, e2, e3. eexists. split; [done|]. do 3 (split; [done|]).
  simpl. by rewrite <- !app_assoc.
Qed.

(** Every run of the loop that still has an iteration to go leaves a trace
    of the shape [retryTrace], and throws what the trace ends with. *)
Lemma attemptLoop_trace {A B} op path (call : Chan → (JsError + A) * Chan)
    (resolve : A → B) failure remaining :
  ∀ attempt lastError (w : World Chan),
    attempt + Z.of_nat remaining = MAX_RETRIES →
    ∃ evs,
      log (attemptLoop op path call resolve failure (S remaining) attempt
             lastError w).2 = log w ++ evs
      ∧ retryTrace evs
          (thrownOf (attemptLoop op path call resolve failure (S remaining)
                       attempt lastError w)).1.
Proof.
  induction remaining as [|n IH]; intros attempt lastError w Hinv.
  - destruct (call (chan w)) as [[e|a] c] eqn:Hc.
    + rewrite (attemptLoop_last _ _ _ _ _ _ _ _ _ e c) by (done || lia).
      eexists. split; [done|]. constructor.
    + rewrite (attemptLoop_resolves _ _ _ _ _ _ _ _ _ a c) by done.
      eexists. split; [done|]. constructor.
  - destruct (call (chan w)) as [[e|a] c] eqn:Hc.
    + destruct (decide (classifySftpError e = transient)) as [Hk|Hk].
      * rewrite (attemptLoop_retries _ _ _ _ _ _ _ _ _ e c) by (done || lia).
        edestruct (IH (attempt + 1) (Some e)) as (evs & Hlog & Htr); [lia|].
        eexists. split.
        -- rewrite Hlog. simpl. rewrite <- !app_assoc. done.
        -- simpl. by constructor.
      * rewrite (attemptLoop_gives_up _ _ _ _ _ _ _ _ _ e c) by done.
        eexists. split; [done|]. constructor.
    + rewrite (attemptLoop_resolves _ _ _ _ _ _ _ _ _ a c) by done.
      eexists. split; [done|]. constructor.
Qed.

(** In such a trace a call rejected with an error that is not transient
    comes last, and its error is what is thrown. *)
Lemma retryTrace_surfaces evs r :
  retryTrace evs r →
  ∀ pre op path e post,
    evs = pre ++ EvSftp op path (Some e) :: post →
    classifySftpError e ≠ transient →
    post = [] ∧ r = Some e.
Proof.
  induction 1 as [op0 p0|op0 p0 e0|op0 p0 e0 ms evs r Hk Htr IH];
    intros pre op path e post Heq Hne.
  - destruct pre as [|x [|y pre]]; simplify_eq/=.
  - destruct pre as [|x [|y pre]]; simplify_eq/=. done.
  - destruct pre as [|x [|y pre]]; simplify_eq/=.
    eapply IH; eauto.
Qed.

(** In such a trace every timer follows a call rejected with a transient
    error. *)
Lemma retryTrace_sleeps evs r :
  retryTrace evs r →
  ∀ pre ms post,
    evs = pre ++ EvSleep ms :: post →
    ∃ pre' op path e,
      pre = pre' ++ [EvSftp op path (Some e)]
      ∧ classifySftpError e = transient.
Proof.
  induction 1 as [op0 p0|op0 p0 e0|op0 p0 e0 ms0 evs r Hk Htr IH];
    intros pre ms post Heq.
  - destruct pre as [|x [|y pre]]; simplify_eq/=.
  - destruct pre as [|x [|y pre]]; simplify_eq/=.
  - destruct pre as [|x [|y pre]]; simplify_eq/=.
    + by exists [], op0, p0, e0.
    + destruct (IH _ _ _ eq_refl) as (pre' & op & path & e & -> & Hk').
      exists (EvSftp op0 p0 (Some e0) :: EvSleep ms0 :: pre'), op, path, e.
      done.
Qed.

Lemma thrownBy_trace (o : Operation) (w : World Chan) :
  ∃ evs, log (thrownBy sftp o w).2 = log w ++ evs
         ∧ retryTrace evs (thrownBy sftp o w).1.
Proof.
  destruct o as [p enc|p|p]; unfold thrownBy, readFile, stat, readdir;
    change (Z.to_nat MAX_RETRIES) with 3%nat.
  - edestruct (attemptLoop_trace OpReadFile p (sftp_readFile sftp p enc) id
                 ("Failed to read file: " +:+ p) 2 1 None w) as (evs & H1 & H2);
      [done|].
    exists evs. split; [|done].
    by destruct (attemptLoop _ _ _ _ _ _ _ _ _) as [[?|?] ?].
  - edestruct (attemptLoop_trace OpStat p (sftp_stat sftp p) statResult
                 ("Failed to stat: " +:+ p) 2 1 None w) as (evs & H1 & H2);
      [done|].
    exists evs. split; [|done].
    by destruct (attemptLoop _ _ _ _ _ _ _ _ _) as [[?|?] ?].
  - edestruct (attemptLoop_trace OpReaddir p (sftp_readdir sftp p) (map direntOf)
                 ("Failed to read directory: " +:+ p) 2 1 None w)
      as (evs & H1 & H2); [done|].
    exists evs. split; [|done].
    by destruct (attemptLoop _ _ _ _ _ _ _ _ _) as [[?|?] ?].
Qed.

(** C3. A remote [readFile], [stat] or [readdir] whose channel answers
    every attempt with a transient error is attempted exactly three times:
    the trace grows by attempt, 75 ms timer, attempt, 150 ms timer,
    attempt (the timer after attempt n is n * 75 ms), and the error of the
    third attempt is thrown. *)
Theorem transient_channel_three_attempts (o : Operation) (w : World Chan) :
  (∀ c, ∃ e, channelError sftp o c = Some e ∧ classifySftpError e = transient) →
  ∃ e1 e2 e3 w',
    thrownBy sftp o w = (Some e3, w')
    ∧ classifySftpError e1 = transient
    ∧ classifySftpError e2 = transient
    ∧ classifySftpError e3 = transient
    ∧ log w' = log w ++ [attemptOf o (Some e1); EvSleep (1 * 75);
                         attemptOf o (Some e2); EvSleep (2 * 75);
                         attemptOf o (Some e3)].
Proof.
  intros Hall.
  destruct o as [p enc|p|p]; simpl in Hall; unfold thrownBy, readFile, stat, readdir.
  - destruct (attemptLoop_exhausted OpReadFile p (sftp_readFile sftp p enc) id
                ("Failed to read file: " +:+ p) w Hall)
      as (e1 & e2 & e3 & w' & -> & ?). exists e1, e2, e3, w'. done.
  - destruct (attemptLoop_exhausted OpStat p (sftp_stat sftp p) statResult
                ("Failed to stat: " +:+ p) w Hall)
      as (e1 & e2 & e3 & w' & -> & ?). exists e1, e2, e3, w'. done.
  - destruct (attemptLoop_exhausted OpReaddir p (sftp_readdir sftp p) (map direntOf)
                ("Failed to read directory: " +:+ p) w Hall)
      as (e1 & e2 & e3 & w' & -> & ?). exists e1, e2, e3, w'. done.
Qed.

Lemma thrownBy_first_attempt (o : Operation) (w : World Chan) e :
  channelError sftp o (chan w) = Some e →
  classifySftpError e ≠ transient →
  ∃ w', thrownBy sftp o w = (Some e, w')
        ∧ log w' = log w ++ [attemptOf o (Some e)].
Proof.
  intros Hc Hk.
  destruct o as [p enc|p|p]; simpl in Hc; unfold thrownBy, readFile, stat, readdir;
    change (Z.to_nat MAX_RETRIES) with 3%nat.
  - destruct (sftp_readFile sftp p enc (chan w)) as [[e'|a] c] eqn:Hcall;
      simpl in Hc; [|done]; injection Hc as ->.
    rewrite (attemptLoop_gives_up _ _ _ _ _ _ _ _ _ e c) by done.
    by eexists.
  - destruct (sftp_stat sftp p (chan w)) as [[e'|a] c] eqn:Hcall;
      simpl in Hc; [|done]; injection Hc as ->.
    rewrite (attemptLoop_gives_up _ _ _ _ _ _ _ _ _ e c) by done.
    by eexists.
  - destruct (sftp_readdir sftp p (chan w)) as [[e'|a] c] eqn:Hcall;
      simpl in Hc; [|done]; injection Hc as ->.
    rewrite (attemptLoop_gives_up _ _ _ _ _ _ _ _ _ e c) by done.
    by eexists.
Qed.

(** C7. In the trace of any remote [readFile], [stat] or [readdir]: an
    error of the first attempt that is classified not_found or permanent
    is thrown after that one attempt, with no timer and no second attempt;
    at whatever attempt a rejection that is not transient occurs, nothing
    follows it and its error is what is thrown; and every timer, that is
    every retry, follows a rejection classified transient. *)
Theorem only_transient_is_retried (o : Operation) (w : World Chan) :
  ∃ evs,
    log (thrownBy sftp o w).2 = log w ++ evs
    ∧ (∀ e, channelError sftp o (chan w) = Some e →
            classifySftpError e ≠ transient →
            evs = [attemptOf o (Some e)] ∧ (thrownBy sftp o w).1 = Some e)
    ∧ (∀ pre op path e post,
          evs = pre ++ EvSftp op path (Some e) :: post →
          classifySftpError e ≠ transient →
          post = [] ∧ (thrownBy sftp o w).1 = Some e)
    ∧ (∀ pre ms post,
          evs = pre ++ EvSleep ms :: post →
          ∃ pre' op path e,
            pre = pre' ++ [EvSftp op path (Some e)]
            ∧ classifySftpError e = transient).
Proof.
  destruct (thrownBy_trace o w) as (evs & Hlog & Htr).
  exists evs. split; [done|]. split; [|split].
  - intros e Hc Hk.
    destruct (thrownBy_first_attempt o w e Hc Hk) as (w' & Hrun & Hlog').
    rewrite Hrun in Hlog |- *. simpl in *.
    rewrite Hlog' in Hlog. by apply app_inv_head in Hlog as <-.
  - intros pre op path e post. by apply retryTrace_surfaces.
  - intros pre ms post. by eapply retryTrace_sleeps.
Qed.

(** C4. [exists] resolves to a boolean whatever [stat] does, leaving the
    world as [stat] left it: true when [stat] resolves, false when what it
    throws is classified not_found, true when it is classified transient,
    false when it is classified permanent. Against a channel that answers
    every [stat] with a transient error that is true after the three
    attempts of [stat]. *)
Theorem exists_resolves (filePath : string) (w : World Chan) :
  (exists_ sftp filePath w).2 = (stat sftp filePath w).2
  ∧ (exists_ sftp filePath w).1
    = match (stat sftp filePath w).1 with
      | Returned _ => true
      | Thrown error =>
          match classifySftpError error with
          | not_found => false
          | transient => true
          | permanent => false
          end
      end
  ∧ ((∀ c, ∃ e, channelError sftp (Stat filePath) c = Some e
                ∧ classifySftpError e = transient) →
     ∃ e1 e2 e3,
       exists_ sftp filePath w
       = (true,
          MkWorld (chan (stat sftp filePath w).2)
            (log w ++ [EvSftp OpStat filePath (Some e1); EvSleep 75;
                       EvSftp OpStat filePath (Some e2); EvSleep 150;
                       EvSftp OpStat filePath (Some e3)])
            (streams w) (pipes w) (errorHandlers w) (nextTickQueue w))).
Proof.
  split; [|split].
  - unfold exists_. destruct (stat sftp filePath w) as [[r|e] w1]; [done|].
    simpl. destruct (classifySftpError e); reflexivity.
  - unfold exists_. destruct (stat sftp filePath w) as [[r|e] w1]; [done|].
    simpl. destruct (classifySftpError e); reflexivity.
  - intros Hall.
    destruct (attemptLoop_exhausted OpStat filePath (sftp_stat sftp filePath)
                statResult ("Failed to stat: " +:+ filePath) w Hall)
      as (e1 & e2 & e3 & w' & Hrun & K1 & K2 & K3 & Hlog).
    exists e1, e2, e3. fold (stat sftp filePath w) in Hrun. unfold exists_.
    destruct (stat sftp filePath w) as [[r|e] w1] eqn:Hst; simplify_eq/=.
    rewrite K3. simpl. f_equal.
    assert (Hrest : streams w' = streams w ∧ pipes w' = pipes w
                    ∧ errorHandlers w' = errorHandlers w
                    ∧ nextTickQueue w' = nextTickQueue w).
    { revert Hst. unfold stat. change (Z.to_nat MAX_RETRIES) with 3%nat.
      simpl. unfold request.
      repeat (destruct (sftp_stat sftp filePath _) as [[?|?] ?]; simpl;
              repeat case_match; simpl; try (intros; simplify_eq/=; done)). }
    destruct Hrest as (? & ? & ? & ?). destruct w'; simpl in *. by subst.
Qed.

Lemma destroyStream_length s e (l : list StreamStatus) :
  length (destroyStream s e l) = length l.
Proof.
  unfold destroyStream. repeat case_match; try done. apply length_insert.
Qed.

Lemma destroyStream_other s i e (l : list StreamStatus) :
  i ≠ s → destroyStream s e l !! i = l !! i.
Proof.
  intros Hne. unfold destroyStream. repeat case_match; try done.
  by apply list_lookup_insert_ne.
Qed.

Lemma destroyStream_flowing s e (l : list StreamStatus) :
  l !! s = Some Flowing → destroyStream s e l !! s = Some (Errored e).
Proof.
  intros Hs. unfold destroyStream. rewrite Hs.
  apply list_lookup_insert_eq. by eapply lookup_lt_Some.
Qed.

(** Callbacks about other streams leave a stream as it is. *)
Lemma ticks_leave_alone (q : list (nat * JsError)) s :
  ∀ l : list StreamStatus,
    Forall (fun t => t.1 ≠ s) q →
    foldl (fun l t => destroyStream t.1 t.2 l) l q !! s = l !! s.
Proof.
  induction q as [|t q IH]; intros l Hq; [done|].
  apply Forall_cons in Hq as [Ht Hq]. simpl.
  rewrite IH by done. by apply destroyStream_other.
Qed.

(** The [catch] arm: the stream it returns is new and live, the callback
    that destroys it is queued behind what was queued, and once the queue
    has run the stream is errored with [err]. *)
Lemma erroredStream_deferred err (w : World Chan) :
  queueAllocated w →
  streams (erroredStream err w).2 !! (erroredStream err w).1 = Some Flowing
  ∧ (erroredStream err w).1 = length (streams w)
  ∧ queueAllocated (erroredStream err w).2
  ∧ nextTickQueue (erroredStream err w).2
    = nextTickQueue w ++ [((erroredStream err w).1, err)]
  ∧ streams (runNextTicks (erroredStream err w).2) !! (erroredStream err w).1
    = Some (Errored err).
Proof.
  intros Hq. unfold erroredStream, queueAllocated in *. simpl.
  assert (Hlive : (streams w ++ [Flowing]) !! length (streams w) = Some Flowing).
  { by apply list_lookup_middle. }
  split; [done|]. split; [done|]. split; [|split; [done|]].
  - apply Forall_app. split.
    + eapply Forall_impl; [exact Hq|]. intros t Ht. simpl in *.
      rewrite length_app. simpl. lia.
    + constructor; [|done]. simpl. rewrite length_app. simpl. lia.
  - rewrite foldl_app. simpl. apply destroyStream_flowing.
    rewrite ticks_leave_alone; [done|].
    eapply Forall_impl; [exact Hq|]. intros t Ht. simpl in *. lia.
Qed.

(** C9. [createReadStream] always hands back a stream and never an
    exception, and the stream is live when it is handed back. When the
    set-up throws [err] (in [sftp.createReadStream], in [pipe] or in [on]),
    the callback destroying the stream with [err] is only queued for the
    next tick; once the queue has run the stream is errored with [err].
    When the set-up goes through nothing is queued. *)
Theorem createReadStream_never_throws (filePath : string)
    (opts : option ReadStreamOptions) (w : World Chan) :
  queueAllocated w →
  let r := createReadStream sftp filePath opts w in
  streams r.2 !! r.1 = Some Flowing
  ∧ queueAllocated r.2
  ∧ match setupFailure sftp filePath opts w with
    | Some err =>
        nextTickQueue r.2 = nextTickQueue w ++ [(r.1, err)]
        ∧ streams (runNextTicks r.2) !! r.1 = Some (Errored err)
    | None =>
        nextTickQueue r.2 = nextTickQueue w
        ∧ ∃ src, errorHandlers r.2 = errorHandlers w ++ [(src, r.1)]
    end.
Proof.
  intros Hq. unfold createReadStream, setupFailure. simpl.
  set (options := {| opt_start := opts ≫= opt_start;
                     opt_encoding := opts ≫= opt_encoding |}).
  destruct (sftp_createReadStream sftp filePath options (chan w))
    as [[err|sftpStream] c].
  - destruct (erroredStream_deferred err (setChan c w) Hq)
      as (H1 & _ & H3 & H4 & H5). done.
  - set (w1 := (newPassThrough (setChan c w)).2).
    assert (Hq1 : queueAllocated w1).
    { unfold queueAllocated in *. simpl.
      eapply Forall_impl; [exact Hq|]. intros t Ht. simpl in *.
      rewrite length_app. simpl. lia. }
    change (newPassThrough (setChan c w))
      with (length (streams w), w1).
    cbv iota beta.
    destruct (pipe_throws sftpStream) as [err|].
    + destruct (erroredStream_deferred err w1 Hq1) as (H1 & _ & H3 & H4 & H5).
      done.
    + destruct (on_throws sftpStream) as [err|].
      * assert (Hq2 : queueAllocated
                        (addPipe Chan (sftpStream_id sftpStream)
                           (length (streams w)) w1)) by exact Hq1.
        destruct (erroredStream_deferred err _ Hq2) as (H1 & _ & H3 & H4 & H5).
        done.
      * simpl. split; [by apply list_lookup_middle|]. split; [exact Hq1|].
        split; [done|]. by eexists.
Qed.

End Facts.

(** Scenario: [stat("/data/x")] over a channel that keeps answering with
    SFTP code 4. *)
Lemma transient_channel_three_attempts_witness :
  ∃ e1 e2 e3 w',
    thrownBy (failingChannel sftpFailure) (Stat "/data/x") freshWorld
    = (Some e3, w')
    ∧ classifySftpError e1 = transient
    ∧ classifySftpError e2 = transient
    ∧ classifySftpError e3 = transient
    ∧ log w' = log freshWorld
               ++ [attemptOf (Stat "/data/x") (Some e1); EvSleep (1 * 75);
                   attemptOf (Stat "/data/x") (Some e2); EvSleep (2 * 75);
                   attemptOf (Stat "/data/x") (Some e3)].
Proof.
  apply (transient_channel_three_attempts (failingChannel sftpFailure)
           (Stat "/data/x") freshWorld).
  intros c. exists sftpFailure. split; reflexivity.
Defined.

(** Scenario: [readFile("/missing")] answered with SFTP code 2. *)
Lemma only_transient_is_retried_witness :
  (thrownBy (failingChannel sftpNoSuchFile) (ReadFile "/missing" "utf8")
     freshWorld).1 = Some sftpNoSuchFile
  ∧ log (thrownBy (failingChannel sftpNoSuchFile) (ReadFile "/missing" "utf8")
           freshWorld).2
    = [EvSftp OpReadFile "/missing" (Some sftpNoSuchFile)].
Proof.
  destruct (only_transient_is_retried (failingChannel sftpNoSuchFile)
              (ReadFile "/missing" "utf8") freshWorld)
    as (evs & Hlog & Hfirst & _).
  destruct (Hfirst sftpNoSuchFile) as [Hevs Hthrown].
  - reflexivity.
  - vm_compute. discriminate.
  - split; [exact Hthrown|]. rewrite Hlog, Hevs. reflexivity.
Defined.

Lemma exists_resolves_witness :
  ∃ e1 e2 e3,
    exists_ (failingChannel sftpFailure) "/data/x" freshWorld
    = (true,
       MkWorld (chan (stat (failingChannel sftpFailure) "/data/x" freshWorld).2)
         (log freshWorld
          ++ [EvSftp OpStat "/data/x" (Some e1); EvSleep 75;
              EvSftp OpStat "/data/x" (Some e2); EvSleep 150;
              EvSftp OpStat "/data/x" (Some e3)])
         (streams freshWorld) (pipes freshWorld) (errorHandlers freshWorld)
         (nextTickQueue freshWorld)).
Proof.
  apply (exists_resolves (failingChannel sftpFailure) "/data/x" freshWorld).
  intros c. exists sftpFailure. split; reflexivity.
Defined.

Lemma createReadStream_never_throws_witness :
  streams (createReadStream (failingChannel sftpPermissionDenied) "/data/x"
             None freshWorld).2 !! 0%nat = Some Flowing
  ∧ nextTickQueue (createReadStream (failingChannel sftpPermissionDenied)
                     "/data/x" None freshWorld).2
    = [(0%nat, sftpPermissionDenied)]
  ∧ streams (runNextTicks
               (createReadStream (failingChannel sftpPermissionDenied)
                  "/data/x" None freshWorld).2) !! 0%nat
    = Some (Errored sftpPermissionDenied).
Proof.
  destruct (createReadStream_never_throws (failingChannel sftpPermissionDenied)
              "/data/x" None freshWorld) as (Hlive & _ & Hqueue & Hlater).
  - unfold queueAllocated. simpl. constructor.
  - split; [exact Hlive|]. split; [exact Hqueue|exact Hlater].
Defined.

(** The classification of the codes the source names, and of one it does
    not. *)
Example classify_codes :
  classifySftpError (MkJsError true (CodeNumber 2) "x") = not_found
  ∧ classifySftpError (MkJsError true (CodeString "ENOENT") "x") = not_found
  ∧ classifySftpError (MkJsError true (CodeNumber 4) "x") = transient
  ∧ classifySftpError (MkJsError true (CodeString "EAGAIN") "x") = transient
  ∧ classifySftpError (MkJsError true (CodeString "ECONNRESET") "x") = transient
  ∧ classifySftpError (MkJsError true (CodeString "ETIMEDOUT") "x") = transient
  ∧ classifySftpError (MkJsError true (CodeString "EPIPE") "x") = transient
  ∧ classifySftpError (MkJsError true (CodeNumber 3) "x") = permanent
  ∧ classifySftpError (MkJsError false CodeAbsent "x") = permanent.
Proof. repeat split; reflexivity. Qed.

(** Scenario: [stat] answered with a transient code twice, then with the
    attributes of a regular file. *)
Example stat_third_attempt :
  let channel : SFTPWrapper nat :=
    {| sftp_readFile := fun _ _ c => (inl sftpFailure, S c);
       sftp_stat := fun _ c =>
         (if (c <? 2)%nat then inl sftpFailure
          else inr (MkStats 33188 120 (Some 1700000000)), S c);
       sftp_readdir := fun _ c => (inl sftpFailure, S c);
       sftp_createReadStream := fun _ _ c => (inl sftpFailure, S c);
       sftp_end := fun c => (None, c) |} in
  stat channel "/data/x" (MkWorld 0%nat [] [] [] [] [])
  = (Returned (MkFsStatResult 120 1700000000000 1700000000000 true false),
     MkWorld 3%nat
       [EvSftp OpStat "/data/x" (Some sftpFailure); EvSleep 75;
        EvSftp OpStat "/data/x" (Some sftpFailure); EvSleep 150;
        EvSftp OpStat "/data/x" None] [] [] [] []).
Proof. reflexivity. Qed.

End SshFacts.

(** * Properties of the snapshot store and of the context slice *)
Module RendererFacts.
Import Renderer.

(** ** contextStorage *)

Lemma deleteSnapshot_healthy contextId (db : Idb) :
  del_throws db (STORAGE_KEY_PREFIX +:+ contextId) = None →
  deleteSnapshot contextId db
  = setEntries (delete (STORAGE_KEY_PREFIX +:+ contextId) (entries db)) db.
Proof. intros H. unfold deleteSnapshot, idb_del. by rewrite H. Qed.

(** Whatever IndexedDB does, [loadSnapshot] gives nothing for a key without
    a record. *)
Lemma loadSnapshot_absent contextId (db : Idb) :
  entries db !! (STORAGE_KEY_PREFIX +:+ contextId) = None →
  loadSnapshot contextId db = (None, db).
Proof.
  intros H. unfold loadSnapshot, idb_get.
  destruct (get_throws db _); [done|]. by rewrite H.
Qed.

(** A read that IndexedDB rejects counts as no snapshot. *)
Lemma loadSnapshot_read_rejected contextId (db : Idb) e :
  get_throws db (STORAGE_KEY_PREFIX +:+ contextId) = Some e →
  loadSnapshot contextId db = (None, db).
Proof. intros H. unfold loadSnapshot, idb_get. by rewrite H. Qed.

(** C5. With IndexedDB answering the read and the delete of the key:
    [loadSnapshot] gives nothing when no record is stored; when the record
    is older than the TTL of five minutes it gives nothing and the record
    is deleted; when the record is of another version it gives nothing and
    the record is deleted; otherwise it gives the stored snapshot and
    leaves the store as it is. *)
Theorem loadSnapshot_cases (contextId : string) (db : Idb) :
  let key := STORAGE_KEY_PREFIX +:+ contextId in
  get_throws db key = None →
  del_throws db key = None →
  SNAPSHOT_TTL_MS = 5 * 60 * 1000
  ∧ (entries db !! key = None → loadSnapshot contextId db = (None, db))
  ∧ (∀ stored,
        entries db !! key = Some stored →
        now db - timestamp stored > SNAPSHOT_TTL_MS →
        loadSnapshot contextId db
        = (None, setEntries (delete key (entries db)) db)
        ∧ entries (loadSnapshot contextId db).2 !! key = None)
  ∧ (∀ stored,
        entries db !! key = Some stored →
        now db - timestamp stored ≤ SNAPSHOT_TTL_MS →
        version stored ≠ SNAPSHOT_VERSION →
        loadSnapshot contextId db
        = (None, setEntries (delete key (entries db)) db)
        ∧ entries (loadSnapshot contextId db).2 !! key = None)
  ∧ (∀ stored,
        entries db !! key = Some stored →
        now db - timestamp stored ≤ SNAPSHOT_TTL_MS →
        version stored = SNAPSHOT_VERSION →
        loadSnapshot contextId db = (Some (snapshot stored), db)).
Proof.
  intros key Hget Hdel. split; [done|]. split; [|split; [|split]].
  - by apply loadSnapshot_absent.
  - intros stored Hs Hage.
    assert (Hrun : loadSnapshot contextId db
                   = (None, setEntries (delete key (entries db)) db)).
    { unfold loadSnapshot, idb_get. fold key. rewrite Hget, Hs.
      destruct (now db - timestamp stored >? SNAPSHOT_TTL_MS) eqn:Hb.
      - by rewrite deleteSnapshot_healthy.
      - rewrite Z.gtb_ltb in Hb. apply Z.ltb_ge in Hb. lia. }
    rewrite Hrun. split; [done|]. simpl. apply lookup_delete_eq.
  - intros stored Hs Hage Hver.
    assert (Hrun : loadSnapshot contextId db
                   = (None, setEntries (delete key (entries db)) db)).
    { unfold loadSnapshot, idb_get. fold key. rewrite Hget, Hs.
      destruct (now db - timestamp stored >? SNAPSHOT_TTL_MS) eqn:Hb.
      - by rewrite deleteSnapshot_healthy.
      - destruct (version stored =? SNAPSHOT_VERSION) eqn:Hv.
        + apply Z.eqb_eq in Hv. done.
        + simpl. by rewrite deleteSnapshot_healthy. }
    rewrite Hrun. split; [done|]. simpl. apply lookup_delete_eq.
  - intros stored Hs Hage Hver.
    unfold loadSnapshot, idb_get. fold key. rewrite Hget, Hs.
    destruct (now db - timestamp stored >? SNAPSHOT_TTL_MS) eqn:Hb.
    + rewrite Z.gtb_ltb in Hb. apply Z.ltb_lt in Hb. lia.
    + rewrite Hver. by rewrite Z.eqb_refl.
Qed.

(** Scenario: a snapshot stored for "ssh-db1" at time 1000 with version 1,
    loaded six minutes later. *)
Lemma loadSnapshot_cases_witness :
  loadSnapshot "ssh-db1" idbSixMinutesLater
  = (None,
     setEntries (delete "context-snapshot:ssh-db1" (entries idbSixMinutesLater))
       idbSixMinutesLater)
  ∧ entries (loadSnapshot "ssh-db1" idbSixMinutesLater).2
    !! "context-snapshot:ssh-db1" = None.
Proof.
  destruct (loadSnapshot_cases "ssh-db1" idbSixMinutesLater)
    as (_ & _ & Hexpired & _).
  - reflexivity.
  - reflexivity.
  - apply (Hexpired storedAt1000).
    + reflexivity.
    + reflexivity.
Defined.

(** What [saveSnapshot] stores is what [loadSnapshot] gives back within
    the TTL. *)
Lemma load_after_save contextId snapshot (db : Idb) :
  get_throws db (STORAGE_KEY_PREFIX +:+ contextId) = None →
  set_throws db (STORAGE_KEY_PREFIX +:+ contextId) = None →
  loadSnapshot contextId (saveSnapshot contextId snapshot db)
  = (Some snapshot, saveSnapshot contextId snapshot db).
Proof.
  intros Hget Hset. unfold saveSnapshot, idb_set. rewrite Hset. simpl.
  unfold loadSnapshot, idb_get. simpl. rewrite Hget.
  rewrite lookup_insert_eq. simpl.
  rewrite Z.sub_diag. done.
Qed.

(** ** switchContext *)

Section Switch.

Context {Ext : Type} (svc : Services Ext).
Context (getFullResetState : Workspace → Workspace).


(** The steps up to the last one leave [activeContextId] alone; the last
    one, which assigns it, cannot throw. *)
Lemma switchSteps_thrown state targetContextId (w : World Ext) e w1 :
  switchSteps svc getFullResetState state targetContextId w = (Thrown e, w1) →
  activeContextId (store w1) = activeContextId (store w).
Proof.
  unfold switchSteps, fetchFresh, restore. unfold bind, invoke, settle, set.
  simpl. intros H.
  repeat (case_match; simplify_eq/=); done.
Qed.

Lemma switchSteps_returned state targetContextId (w : World Ext) u w1 :
  switchSteps svc getFullResetState state targetContextId w = (Returned u, w1) →
  activeContextId (store w1) = targetContextId
  ∧ isContextSwitching (store w1) = false
  ∧ Renderer.targetContextId (store w1) = None.
Proof.
  unfold switchSteps, fetchFresh, restore. unfold bind, invoke, settle, set.
  simpl. intros H.
  repeat (case_match; simplify_eq/=); done.
Qed.

Lemma switch_run target (w : World Ext) :
  bind (set (beginSwitch target))
    (fun _ => switchSteps svc getFullResetState (store w) target) w
  = switchSteps svc getFullResetState (store w) target
      (MkWorld (beginSwitch target (store w)) (ext w) (calls w)).
Proof. reflexivity. Qed.

(** C8. Switching to the context that is already active gives back the
    world as it was: the store is not touched, nothing is written to the
    snapshot store, nothing is asked of the main process. *)
Theorem switch_to_active_is_noop (w : World Ext) :
  switchContext svc getFullResetState (activeContextId (store w)) w = w.
Proof. unfold switchContext. by rewrite String.eqb_refl. Qed.

(** C1. When a switch to another context fails, whichever step threw, the
    store afterwards has the [activeContextId] it had before, and
    [isContextSwitching] is false (and [targetContextId] is null). *)
Theorem failed_switch_keeps_active (target : string) (w : World Ext)
    (e : JsError) :
  target ≠ activeContextId (store w) →
  switchFailure svc getFullResetState target w = Some e →
  activeContextId (store (switchContext svc getFullResetState target w))
  = activeContextId (store w)
  ∧ isContextSwitching (store (switchContext svc getFullResetState target w))
    = false
  ∧ targetContextId (store (switchContext svc getFullResetState target w))
    = None.
Proof.
  intros Hne Hfail. unfold switchFailure, switchContext in *.
  apply String.eqb_neq in Hne. rewrite Hne. rewrite switch_run in *.
  destruct (switchSteps _ _ _ _ _) as [[u|e'] w1] eqn:Hrun; [done|].
  apply switchSteps_thrown in Hrun. done.
Qed.

(** A switch that does not fail ends on the target, with the flag down. *)
Lemma completed_switch_activates (target : string) (w : World Ext) :
  target ≠ activeContextId (store w) →
  switchFailure svc getFullResetState target w = None →
  activeContextId (store (switchContext svc getFullResetState target w)) = target
  ∧ isContextSwitching (store (switchContext svc getFullResetState target w))
    = false.
Proof.
  intros Hne Hfail. unfold switchFailure, switchContext in *.
  apply String.eqb_neq in Hne. rewrite Hne. rewrite switch_run in *.
  destruct (switchSteps _ _ _ _ _) as [[u|e'] w1] eqn:Hrun; [|done].
  apply switchSteps_returned in Hrun. by destruct Hrun as (? & ? & _).
Qed.

(** Each awaited step, when it rejects, fails the switch: the snapshot
    save, the switch of the main process, the two fetches, the snapshot
    load. *)
Lemma save_rejection_fails (target : string) (w : World Ext) e :
  (∀ contextId snapshot x, (svc_saveSnapshot svc contextId snapshot x).1 = Thrown e) →
  switchFailure svc getFullResetState target w = Some e.
Proof.
  intros H. unfold switchFailure. rewrite switch_run.
  unfold switchSteps, bind, invoke. simpl.
  destruct (svc_saveSnapshot _ _ _ _) as [r x] eqn:Hs.
  specialize (H (activeContextId (store w))
                (captureSnapshot (store w) (activeContextId (store w))
                   (svc_dateNow svc (ext w))) (ext w)).
  rewrite Hs in H. simpl in H. by subst.
Qed.

Lemma backend_rejection_fails (target : string) (w : World Ext) e :
  (∀ contextId snapshot x, ∃ x', svc_saveSnapshot svc contextId snapshot x = (Returned tt, x')) →
  (∀ x, (svc_context_switch svc target x).1 = Thrown e) →
  switchFailure svc getFullResetState target w = Some e.
Proof.
  intros Hsave H. unfold switchFailure. rewrite switch_run.
  unfold switchSteps, bind, invoke. simpl.
  destruct (Hsave (activeContextId (store w))
              (captureSnapshot (store w) (activeContextId (store w))
                 (svc_dateNow svc (ext w))) (ext w)) as [x1 ->].
  simpl. specialize (H x1). destruct (svc_context_switch _ _ _) as [r x2].
  simpl in H. by subst.
Qed.

Lemma fetch_rejection_fails (target : string) (w : World Ext) e :
  (∀ contextId snapshot x, ∃ x', svc_saveSnapshot svc contextId snapshot x = (Returned tt, x')) →
  (∀ x, ∃ x', svc_context_switch svc target x = (Returned tt, x')) →
  (∀ x, (svc_getProjects svc x).1 = Thrown e) →
  switchFailure svc getFullResetState target w = Some e.
Proof.
  intros Hsave Hswitch H. unfold switchFailure. rewrite switch_run.
  unfold switchSteps, fetchFresh. unfold bind, invoke. simpl.
  destruct (Hsave (activeContextId (store w))
              (captureSnapshot (store w) (activeContextId (store w))
                 (svc_dateNow svc (ext w))) (ext w)) as [x1 ->].
  simpl. destruct (Hswitch x1) as [x2 ->]. simpl.
  specialize (H x2). destruct (svc_getProjects _ _) as [r x3].
  simpl in H. subst. by destruct (svc_getRepositoryGroups _ _) as [[?|?] ?].
Qed.

(** C2, as the code has it. The gate is in the two components that issue
    switch requests, not in [switchContext]: while [isContextSwitching] is
    true the trigger button does nothing and no item can be selected, so
    no request reaches [switchContext], the store is not touched, nothing
    is written and nothing is asked of the main process. With the flag
    down, selecting a rendered item calls [switchContext]. *)
Theorem gate_holds_back_requests (isOpen : bool) (w : World Ext) :
  isContextSwitching (store w) = true →
  handleUiEvent svc getFullResetState ClickTrigger isOpen w = (isOpen, w)
  ∧ (∀ contextId,
        handleUiEvent svc getFullResetState (SelectItem contextId) isOpen w
        = (isOpen, w))
  ∧ (∀ s contextId,
        isContextSwitching s = false →
        contextId ∈ ctx_id <$> availableContexts s →
        handleUiEvent svc getFullResetState (SelectItem contextId) true
          (MkWorld s (ext w) (calls w))
        = (false,
           switchContext svc getFullResetState contextId
             (MkWorld s (ext w) (calls w)))).
Proof.
  intros Hflag. split; [|split].
  - simpl. by rewrite Hflag.
  - intros contextId. simpl. unfold itemRendered. rewrite Hflag.
    by rewrite andb_false_r.
  - intros s contextId Hdown Hin. simpl. unfold itemRendered. rewrite Hdown.
    simpl.
    assert (Hex : existsb (fun c => String.eqb (ctx_id c) contextId)
                    (availableContexts s) = true).
    { apply existsb_exists. apply list_elem_of_fmap in Hin as (c & -> & Hc).
      exists c. split; [by apply list_elem_of_In|]. apply String.eqb_refl. }
    by rewrite Hex.
Qed.

End Switch.

Lemma failed_switch_keeps_active_witness :
  activeContextId
    (store (switchContext services resetAll "ssh-db1"
              (worldOf initialState refusingBackend)))
  = activeContextId (store (worldOf initialState refusingBackend))
  ∧ isContextSwitching
      (store (switchContext services resetAll "ssh-db1"
                (worldOf initialState refusingBackend)))
    = false
  ∧ targetContextId
      (store (switchContext services resetAll "ssh-db1"
                (worldOf initialState refusingBackend)))
    = None.
Proof.
  apply (failed_switch_keeps_active services resetAll "ssh-db1"
           (worldOf initialState refusingBackend) ipcError).
  - discriminate.
  - reflexivity.
Defined.

(** The claim of C2 as stated fails: a [switchContext] called while
    another switch is in flight, for a third context, saves a snapshot,
    switches the main process, fetches, and moves the store to its
    target. *)
Lemma switch_during_switch_proceeds :
  isContextSwitching (store midSwitchWorld) = true
  ∧ targetContextId (store midSwitchWorld) = Some "ssh-db1"
  ∧ calls (switchContext services resetAll "ssh-db2" midSwitchWorld)
    = [CallSaveSnapshot "local"; CallContextSwitch "ssh-db2"; CallGetProjects;
       CallGetRepositoryGroups; CallLoadSnapshot "ssh-db2";
       CallFetchNotifications]
  ∧ entries (idb (ext midSwitchWorld)) !! "context-snapshot:local" = None
  ∧ entries (idb (ext (switchContext services resetAll "ssh-db2" midSwitchWorld)))
    !! "context-snapshot:local"
    = Some (MkStoredSnapshot (snapshotAt "local" 1000) 1000 1)
  ∧ activeContextId
      (store (switchContext services resetAll "ssh-db2" midSwitchWorld))
    = "ssh-db2"
  ∧ isContextSwitching
      (store (switchContext services resetAll "ssh-db2" midSwitchWorld))
    = false.
Proof. repeat split; vm_compute; reflexivity. Qed.

Lemma gate_holds_back_requests_witness :
  handleUiEvent services resetAll ClickTrigger true midSwitchWorld
  = (true, midSwitchWorld)
  ∧ (∀ contextId,
        handleUiEvent services resetAll (SelectItem contextId) true
          midSwitchWorld
        = (true, midSwitchWorld)).
Proof.
  destruct (gate_holds_back_requests services resetAll true midSwitchWorld)
    as (Htrigger & Hselect & _).
  - reflexivity.
  - split; [exact Htrigger|exact Hselect].
Defined.

(** Scenario: active "local", switch to "ssh-db1" with no snapshot stored
    for it. *)
Example switch_to_fresh_context :
  calls (switchContext services resetAll "ssh-db1"
           (worldOf initialState answeringBackend))
  = [CallSaveSnapshot "local"; CallContextSwitch "ssh-db1"; CallGetProjects;
     CallGetRepositoryGroups; CallLoadSnapshot "ssh-db1"; CallFetchNotifications]
  ∧ activeContextId
      (store (switchContext services resetAll "ssh-db1"
                (worldOf initialState answeringBackend)))
    = "ssh-db1"
  ∧ projects
      (workspace
         (store (switchContext services resetAll "ssh-db1"
                   (worldOf initialState answeringBackend))))
    = [MkProject "p1" "alpha"]
  ∧ is_Some
      (entries
         (idb (ext (switchContext services resetAll "ssh-db1"
                      (worldOf initialState answeringBackend))))
       !! "context-snapshot:local").
Proof. repeat split; vm_compute; eauto. Qed.

(** With [contextStorage] as it is, an IndexedDB that rejects every
    operation does not fail the switch: the save and the load swallow the
    rejection, and the empty state is applied. *)
Example broken_store_does_not_block :
  switchFailure services resetAll "ssh-db1"
    (MkWorld initialState (MkEnv brokenIdb answeringBackend) []) = None
  ∧ activeContextId
      (store (switchContext services resetAll "ssh-db1"
                (MkWorld initialState (MkEnv brokenIdb answeringBackend) [])))
    = "ssh-db1"
  ∧ panes
      (paneLayout
         (workspace
            (store (switchContext services resetAll "ssh-db1"
                      (MkWorld initialState (MkEnv brokenIdb answeringBackend)
                         [])))))
    = [defaultPane].
Proof. repeat split. Qed.

(** ** validateSnapshot *)


Lemma truthy_Some (x : option string) :
  truthy x = true ↔ ∃ v, x = Some v ∧ v ≠ EmptyString.
Proof.
  destruct x as [[|a v]|]; simpl; split; try naive_solver.
Qed.

Lemma validProjectIds_fresh (freshProjects : list Project) (id : string) :
  id ∈ validProjectIdsOf freshProjects
  ↔ ∃ q, q ∈ freshProjects ∧ project_id q = id.
Proof.
  unfold validProjectIdsOf. rewrite elem_of_list_to_set, list_elem_of_fmap.
  naive_solver.
Qed.

Lemma validWorktreeIds_fresh (freshRepoGroups : list RepositoryGroup) (id : string) :
  id ∈ validWorktreeIdsOf freshRepoGroups
  ↔ ∃ rg wt, rg ∈ freshRepoGroups ∧ wt ∈ worktrees rg ∧ worktree_id wt = id.
Proof.
  unfold validWorktreeIdsOf. rewrite elem_of_list_to_set, list_elem_of_bind.
  split.
  - intros (rg & Hin & Hrg). apply list_elem_of_fmap in Hin as (wt & -> & Hwt).
    by exists rg, wt.
  - intros (rg & wt & Hrg & Hwt & <-). exists rg. split; [|done].
    apply list_elem_of_fmap. by exists wt.
Qed.


Lemma hasTabWithId_true (tabs : list Tab) (id : option string) :
  hasTabWithId tabs id = true ↔ ∃ t, t ∈ tabs ∧ id = Some (tab_id t).
Proof.
  destruct id as [i|]; simpl.
  - rewrite existsb_exists. split.
    + intros (t & Hin & Heq). apply String.eqb_eq in Heq.
      exists t. split; [by apply list_elem_of_In|by subst].
    + intros (t & Hin & Heq). exists t. split; [by apply list_elem_of_In|].
      simplify_eq. apply String.eqb_refl.
  - split; [done|]. by intros (t & _ & ?).
Qed.

Lemma hasPaneWithId_true (ps : list Pane) (id : string) :
  hasPaneWithId ps id = true ↔ ∃ p, p ∈ ps ∧ pane_id p = id.
Proof.
  unfold hasPaneWithId. rewrite existsb_exists. split.
  - intros (p & Hin & Heq). apply String.eqb_eq in Heq.
    exists p. split; [by apply list_elem_of_In|done].
  - intros (p & Hin & Heq). exists p. split; [by apply list_elem_of_In|].
    subst. apply String.eqb_refl.
Qed.

Lemma positive_length {A} (l : list A) :
  bool_decide (0 < length l)%nat = true ↔ l ≠ [].
Proof.
  rewrite bool_decide_eq_true. destruct l; simpl; split; try done; lia.
Qed.

(** The at-least-one-pane invariant. *)
Lemma finalPanes_cases snapshot freshProjects freshRepoGroups :
  (validatedPanesOf snapshot freshProjects freshRepoGroups ≠ []
   ∧ finalPanesOf snapshot freshProjects freshRepoGroups
     = validatedPanesOf snapshot freshProjects freshRepoGroups)
  ∨ (validatedPanesOf snapshot freshProjects freshRepoGroups = []
     ∧ finalPanesOf snapshot freshProjects freshRepoGroups = [defaultPane]).
Proof.
  unfold finalPanesOf.
  destruct (validatedPanesOf snapshot freshProjects freshRepoGroups) as [|p l].
  - right. done.
  - left. done.
Qed.

Lemma finalPanes_nonempty snapshot freshProjects freshRepoGroups :
  finalPanesOf snapshot freshProjects freshRepoGroups ≠ [].
Proof.
  destruct (finalPanes_cases snapshot freshProjects freshRepoGroups)
    as [[Hne ->]|[_ ->]]; done.
Qed.

(** [validateSnapshot] never throws, and the fields of what it returns. *)
Lemma validateSnapshot_fields snapshot freshProjects freshRepoGroups :
  let snap := fields snapshot in
  let vp := validProjectIdsOf freshProjects in
  let vw := validWorktreeIdsOf freshRepoGroups in
  let validTabs := validTabsOf snapshot freshProjects freshRepoGroups in
  let finalPanes := finalPanesOf snapshot freshProjects freshRepoGroups in
  ∃ r first,
    validateSnapshot snapshot freshProjects freshRepoGroups = Returned r
    ∧ head finalPanes = Some first
    ∧ openTabs r = validTabs
    ∧ panes (paneLayout r) = finalPanes
    ∧ focusedPaneId (paneLayout r)
      = (if hasPaneWithId finalPanes (focusedPaneId (paneLayout snap))
         then focusedPaneId (paneLayout snap) else pane_id first)
    ∧ selectedProjectId r
      = (if truthy (selectedProjectId snap) && has vp (selectedProjectId snap)
         then selectedProjectId snap else None)
    ∧ selectedWorktreeId r
      = (if truthy (selectedWorktreeId snap) && has vw (selectedWorktreeId snap)
         then selectedWorktreeId snap else None)
    ∧ selectedRepositoryId r = selectedRepositoryId snap
    ∧ activeProjectId r
      = (if truthy (activeProjectId snap)
            && (has vp (activeProjectId snap) || has vw (activeProjectId snap))
         then activeProjectId snap else selectedProjectId r)
    ∧ activeTabId r
      = (if truthy (activeTabId snap)
            && negb (hasTabWithId validTabs (activeTabId snap))
         then firstTabId validTabs else activeTabId snap)
    ∧ selectedTabIds r
      = filter (fun id => hasTabWithId validTabs (Some id)) (selectedTabIds snap)
    ∧ projects r = freshProjects
    ∧ repositoryGroups r = freshRepoGroups.
Proof.
  cbv zeta.
  pose proof (finalPanes_nonempty snapshot freshProjects freshRepoGroups) as Hne.
  unfold validateSnapshot.
  destruct (finalPanesOf snapshot freshProjects freshRepoGroups)
    as [|first rest]; [done|].
  destruct (hasPaneWithId (first :: rest) _) eqn:Hfocus; simpl;
    eexists _, first; repeat split.
Qed.

Lemma validatedPanes_elem snapshot freshProjects freshRepoGroups (p : Pane) :
  p ∈ validatedPanesOf snapshot freshProjects freshRepoGroups
  ↔ pane_tabs p ≠ []
    ∧ ∃ p0, p0 ∈ panes (paneLayout (fields snapshot))
            ∧ p = validatePane (validProjectIdsOf freshProjects)
                    (validWorktreeIdsOf freshRepoGroups) p0.
Proof.
  unfold validatedPanesOf. rewrite list_elem_of_filter, list_elem_of_fmap.
  rewrite Is_true_true, positive_length. naive_solver.
Qed.




(** C10. In the layout [validateSnapshot] returns, the focused pane id is
    the id of one of its panes: it is the focused pane id of the snapshot
    when a pane with that id is left after the filtering, and the id of
    the first pane of the result otherwise. *)
Theorem validateSnapshot_focus (snapshot : ContextSnapshot)
    (freshProjects : list Project) (freshRepoGroups : list RepositoryGroup) :
  ∃ r first,
    validateSnapshot snapshot freshProjects freshRepoGroups = Returned r
    ∧ head (panes (paneLayout r)) = Some first
    ∧ (∃ p, p ∈ panes (paneLayout r)
            ∧ pane_id p = focusedPaneId (paneLayout r))
    ∧ ((∃ p, p ∈ validatedPanesOf snapshot freshProjects freshRepoGroups
             ∧ pane_id p = focusedPaneId (paneLayout (fields snapshot))) →
       focusedPaneId (paneLayout r)
       = focusedPaneId (paneLayout (fields snapshot)))
    ∧ ((¬ ∃ p, p ∈ validatedPanesOf snapshot freshProjects freshRepoGroups
               ∧ pane_id p = focusedPaneId (paneLayout (fields snapshot))) →
       focusedPaneId (paneLayout r) = pane_id first).
Proof.
  destruct (validateSnapshot_fields snapshot freshProjects freshRepoGroups)
    as (r & first & Hr & Hhead & _ & Hpanes & Hfocus & _).
  exists r, first. rewrite Hpanes. split; [exact Hr|]. split; [exact Hhead|].
  rewrite Hfocus.
  set (focused := focusedPaneId (paneLayout (fields snapshot))).
  destruct (hasPaneWithId _ focused) eqn:Hhas.
  - apply hasPaneWithId_true in Hhas as (p & Hp & Hid).
    split; [by exists p|]. split; [done|].
    intros Hnone.
    destruct (finalPanes_cases snapshot freshProjects freshRepoGroups)
      as [[Hne Hfin]|[Hnil Hfin]]; rewrite Hfin in Hp, Hhead.
    + exfalso. apply Hnone. by exists p.
    + apply list_elem_of_singleton in Hp. simpl in Hhead. by simplify_eq.
  - split.
    { exists first. split; [|done]. by apply head_Some_elem_of. }
    split; [|done].
    intros (p & Hp & Hid). exfalso.
    assert (hasPaneWithId (finalPanesOf snapshot freshProjects freshRepoGroups)
              focused = true); [|congruence].
    apply hasPaneWithId_true. exists p. split; [|done].
    destruct (finalPanes_cases snapshot freshProjects freshRepoGroups)
      as [[Hne ->]|[Hnil _]]; [done|]. rewrite Hnil in Hp. set_solver.
Qed.

Lemma validateSnapshot_focus_witness :
  ∃ r first,
    validateSnapshot staleSnapshot [] [] = Returned r
    ∧ head (panes (paneLayout r)) = Some first
    ∧ (∃ p, p ∈ panes (paneLayout r)
            ∧ pane_id p = focusedPaneId (paneLayout r))
    ∧ ((∃ p, p ∈ validatedPanesOf staleSnapshot [] []
             ∧ pane_id p = focusedPaneId (paneLayout (fields staleSnapshot))) →
       focusedPaneId (paneLayout r)
       = focusedPaneId (paneLayout (fields staleSnapshot)))
    ∧ ((¬ ∃ p, p ∈ validatedPanesOf staleSnapshot [] []
               ∧ pane_id p = focusedPaneId (paneLayout (fields staleSnapshot))) →
       focusedPaneId (paneLayout r) = pane_id first).
Proof. exact (validateSnapshot_focus staleSnapshot [] []). Defined.

(** The stale snapshot against empty fresh lists: the focused pane goes
    with its only tab, the focus moves to the pane that is left, and the
    active tab falls back to the tab that is left. *)
Example stale_snapshot_validated :
  ∃ r,
    validateSnapshot staleSnapshot [] [] = Returned r
    ∧ pane_id <$> panes (paneLayout r) = ["pane-b"]
    ∧ focusedPaneId (paneLayout (fields staleSnapshot)) = "pane-a"
    ∧ focusedPaneId (paneLayout r) = "pane-b"
    ∧ activeTabId r = Some "t1"
    ∧ selectedProjectId r = None
    ∧ selectedRepositoryId r = Some "repo-gone".
Proof. eexists. split; [vm_compute; reflexivity|]. repeat split. Qed.

(** A snapshot whose panes all lose their tabs comes back with the default
    pane, focused. *)
Example all_panes_emptied :
  ∃ r,
    validateSnapshot
      (MkContextSnapshot
         (withTabs [sessionTab]
            (MkPaneLayout [MkPane "pane-a" [sessionTab] (Some "t2") [] 1%Q]
               "pane-a")
            emptyWorkspace)
         (MkMetadata "ssh-db1" 1000 1)) [] []
    = Returned r
    ∧ panes (paneLayout r) = [defaultPane]
    ∧ focusedPaneId (paneLayout r) = "pane-default"
    ∧ openTabs r = []
    ∧ activeTabId r = None.
Proof. eexists. split; [vm_compute; reflexivity|]. repeat split. Qed.

End RendererFacts.

(** * Further properties of the remote provider *)
Module SshExtras.
Import Ssh.

(** ** Classification *)

Lemma pretty_N_go_not_E (x : N) :
  ∀ s, (∀ s', s ≠ String "E"%char s') →
       ∀ s', pretty_N_go x s ≠ String "E"%char s'.
Proof.
  induction (N.lt_wf_0 x) as [x _ IH]; intros s Hs s'.
  assert (x = 0 ∨ 0 < x)%N as [->|?] by lia.
  - rewrite pretty_N_go_0. apply Hs.
  - rewrite pretty_N_go_step by done. apply IH.
    { by apply N.div_lt. }
    intros s''. unfold pretty_N_char. by repeat case_match.
Qed.

(** A printed integer does not start with the letter E. *)
Lemma pretty_Z_not_E (n : Z) (s : string) : pretty n ≠ String "E"%char s.
Proof.
  destruct n as [|p|p]; [done| |done].
  unfold pretty, pretty_Z, pretty, pretty_positive, pretty, pretty_N.
  case_decide; [done|]. by apply pretty_N_go_not_E.
Qed.

Lemma pretty_Z_eqb (n m : Z) : String.eqb (pretty n) (pretty m) = bool_decide (n = m).
Proof.
  case_bool_decide as H.
  - subst. apply String.eqb_refl.
  - apply String.eqb_neq. intros Heq. by apply (inj pretty) in Heq.
Qed.

Lemma isNotFoundError_code (e : JsError) :
  isNotFoundError e = true
  ↔ code e = CodeNumber 2 ∨ code e = CodeString "2" ∨ code e = CodeString "ENOENT".
Proof.
  unfold isNotFoundError, getErrorCode. destruct (code e) as [n|s|].
  - change "2" with (pretty 2). rewrite pretty_Z_eqb.
    assert (String.eqb (pretty n) "ENOENT" = false) as ->.
    { apply String.eqb_neq, pretty_Z_not_E. }
    rewrite orb_false_r, bool_decide_eq_true. naive_solver.
  - rewrite orb_true_iff, !String.eqb_eq. naive_solver.
  - simpl. naive_solver.
Qed.

Lemma isRetryableError_code (e : JsError) :
  isRetryableError e = true
  ↔ code e = CodeNumber 4 ∨ code e = CodeString "4"
    ∨ code e = CodeString "EAGAIN" ∨ code e = CodeString "ECONNRESET"
    ∨ code e = CodeString "ETIMEDOUT" ∨ code e = CodeString "EPIPE".
Proof.
  unfold isRetryableError, getErrorCode. destruct (code e) as [n|s|].
  - change "4" with (pretty 4). rewrite pretty_Z_eqb.
    assert (∀ s, String.eqb (pretty n) (String "E"%char s) = false) as HE.
    { intros s. apply String.eqb_neq, pretty_Z_not_E. }
    rewrite !HE, !orb_false_r, bool_decide_eq_true. naive_solver.
  - rewrite !orb_true_iff, !String.eqb_eq. naive_solver.
  - simpl. naive_solver.
Qed.

(** X1. What decides the class of an error is its [code] alone: the number
    2 and the strings "2" and "ENOENT" are not_found; the number 4 and the
    strings "4", "EAGAIN", "ECONNRESET", "ETIMEDOUT" and "EPIPE" are
    transient; every other code, and a thrown value without a code, is
    permanent. *)
Theorem classification_by_code (e : JsError) :
  (classifySftpError e = not_found
   ↔ code e = CodeNumber 2 ∨ code e = CodeString "2"
     ∨ code e = CodeString "ENOENT")
  ∧ (classifySftpError e = transient
     ↔ code e = CodeNumber 4 ∨ code e = CodeString "4"
       ∨ code e = CodeString "EAGAIN" ∨ code e = CodeString "ECONNRESET"
       ∨ code e = CodeString "ETIMEDOUT" ∨ code e = CodeString "EPIPE")
  ∧ (classifySftpError e = permanent
     ↔ ¬ (code e = CodeNumber 2 ∨ code e = CodeString "2"
          ∨ code e = CodeString "ENOENT")
       ∧ ¬ (code e = CodeNumber 4 ∨ code e = CodeString "4"
            ∨ code e = CodeString "EAGAIN" ∨ code e = CodeString "ECONNRESET"
            ∨ code e = CodeString "ETIMEDOUT" ∨ code e = CodeString "EPIPE")).
Proof.
  pose proof (isNotFoundError_code e) as Hnf.
  pose proof (isRetryableError_code e) as Hre.
  unfold classifySftpError.
  destruct (isNotFoundError e) eqn:H1; destruct (isRetryableError e) eqn:H2.
  - exfalso. destruct Hnf as [Hnf _], Hre as [Hre _].
    specialize (Hnf eq_refl). specialize (Hre eq_refl).
    destruct Hnf as [Hc|[Hc|Hc]]; rewrite Hc in Hre; intuition discriminate.
  - destruct Hnf as [Hnf _]. specialize (Hnf eq_refl).
    split; [tauto|]. split; split; try discriminate.
    + intros Hc. apply Hre in Hc. discriminate.
    + tauto.
  - destruct Hre as [Hre _]. specialize (Hre eq_refl).
    split; [|split]; split; try discriminate; try tauto.
    intros Hc. apply Hnf in Hc. discriminate.
  - split; [|split]; split; try discriminate; try tauto.
    + intros Hc. apply Hnf in Hc. discriminate.
    + intros Hc. apply Hre in Hc. discriminate.
    + intros _. split; intros Hc; [apply Hnf in Hc|apply Hre in Hc];
        discriminate.
Qed.

(** ** Runs of the retried operations *)

Section Runs.

Context {Chan : Type} (sftp : SFTPWrapper Chan).

(** Every run of the loop as the operations enter it: what it adds to the
    trace, what it leaves alone, and where its result comes from. *)
Lemma attemptLoop_run {A B} op path (call : Chan → (JsError + A) * Chan)
    (resolve : A → B) failure (w : World Chan) :
  ∃ evs,
    log (attemptLoop op path call resolve failure (Z.to_nat MAX_RETRIES) 1
           None w).2 = log w ++ evs
    ∧ streams (attemptLoop op path call resolve failure (Z.to_nat MAX_RETRIES)
                 1 None w).2 = streams w
    ∧ pipes (attemptLoop op path call resolve failure (Z.to_nat MAX_RETRIES)
               1 None w).2 = pipes w
    ∧ errorHandlers (attemptLoop op path call resolve failure
                       (Z.to_nat MAX_RETRIES) 1 None w).2 = errorHandlers w
    ∧ nextTickQueue (attemptLoop op path call resolve failure
                       (Z.to_nat MAX_RETRIES) 1 None w).2 = nextTickQueue w
    ∧ (sleepsIn evs = [] ∨ sleepsIn evs = [75] ∨ sleepsIn evs = [75; 150])
    ∧ attemptsIn evs = S (length (sleepsIn evs))
    ∧ ((∃ a c,
          call c
          = (inr a,
             chan (attemptLoop op path call resolve failure
                     (Z.to_nat MAX_RETRIES) 1 None w).2)
          ∧ (attemptLoop op path call resolve failure (Z.to_nat MAX_RETRIES) 1
               None w).1 = Returned (resolve a)
          ∧ last evs = Some (EvSftp op path None))
       ∨ (∃ e c,
            call c
            = (inl e,
               chan (attemptLoop op path call resolve failure
                       (Z.to_nat MAX_RETRIES) 1 None w).2)
            ∧ (attemptLoop op path call resolve failure (Z.to_nat MAX_RETRIES)
                 1 None w).1 = Thrown e
            ∧ last evs = Some (EvSftp op path (Some e)))).
Proof.
  change (Z.to_nat MAX_RETRIES) with 3%nat. simpl. unfold request.
  destruct (call (chan w)) as [[e1|a1] c1] eqn:H1; simpl.
  2:{ eexists [_]. simpl. do 5 (split; [reflexivity|]).
      split; [by left|]. split; [reflexivity|]. left. eauto. }
  destruct (SftpErrorKind_eqb (classifySftpError e1) transient); simpl.
  2:{ eexists [_]. simpl. do 5 (split; [reflexivity|]).
      split; [by left|]. split; [reflexivity|]. right. eauto. }
  destruct (call c1) as [[e2|a2] c2] eqn:H2; simpl.
  2:{ eexists [_; _; _]. simpl. rewrite <- !app_assoc. simpl.
      do 5 (split; [reflexivity|]).
      split; [right; by left|]. split; [reflexivity|]. left. eauto. }
  destruct (SftpErrorKind_eqb (classifySftpError e2) transient); simpl.
  2:{ eexists [_; _; _]. simpl. rewrite <- !app_assoc. simpl.
      do 5 (split; [reflexivity|]).
      split; [right; by left|]. split; [reflexivity|]. right. eauto. }
  destruct (call c2) as [[e3|a3] c3] eqn:H3; simpl.
  2:{ eexists [_; _; _; _; _]. simpl. rewrite <- !app_assoc. simpl.
      do 5 (split; [reflexivity|]).
      split; [right; by right|]. split; [reflexivity|]. left. eauto. }
  rewrite andb_false_r.
  eexists [_; _; _; _; _]. simpl. rewrite <- !app_assoc. simpl.
  do 5 (split; [reflexivity|]).
  split; [right; by right|]. split; [reflexivity|]. right. eauto.
Qed.

Lemma thrownOf_snd {A} (r : outcome A * World Chan) : (thrownOf r).2 = r.2.
Proof. by destruct r as [[?|?] ?]. Qed.


(** X2. Whatever the channel answers, a remote [readFile], [stat] or
    [readdir] makes between one and three channel calls, one more than it
    sets timers; its timers are none, 75 ms, or 75 ms then 150 ms, so that
    it never waits more than 225 ms in all; and it touches nothing but the
    channel and the trace. *)
Theorem retry_budget (o : Operation) (w : World Chan) :
  ∃ evs,
    log (thrownBy sftp o w).2 = log w ++ evs
    ∧ (1 ≤ attemptsIn evs ≤ 3)%nat
    ∧ attemptsIn evs = S (length (sleepsIn evs))
    ∧ (sleepsIn evs = [] ∨ sleepsIn evs = [75] ∨ sleepsIn evs = [75; 150])
    ∧ foldr Z.add 0 (sleepsIn evs) ≤ 225
    ∧ streams (thrownBy sftp o w).2 = streams w
    ∧ pipes (thrownBy sftp o w).2 = pipes w
    ∧ errorHandlers (thrownBy sftp o w).2 = errorHandlers w
    ∧ nextTickQueue (thrownBy sftp o w).2 = nextTickQueue w.
Proof.
  assert (Hgen : ∀ A B op path (call : Chan → (JsError + A) * Chan)
                   (resolve : A → B) failure,
    ∃ evs,
      log (attemptLoop op path call resolve failure (Z.to_nat MAX_RETRIES) 1
             None w).2 = log w ++ evs
      ∧ (1 ≤ attemptsIn evs ≤ 3)%nat
      ∧ attemptsIn evs = S (length (sleepsIn evs))
      ∧ (sleepsIn evs = [] ∨ sleepsIn evs = [75] ∨ sleepsIn evs = [75; 150])
      ∧ foldr Z.add 0 (sleepsIn evs) ≤ 225
      ∧ streams (attemptLoop op path call resolve failure
                   (Z.to_nat MAX_RETRIES) 1 None w).2 = streams w
      ∧ pipes (attemptLoop op path call resolve failure
                 (Z.to_nat MAX_RETRIES) 1 None w).2 = pipes w
      ∧ errorHandlers (attemptLoop op path call resolve failure
                         (Z.to_nat MAX_RETRIES) 1 None w).2 = errorHandlers w
      ∧ nextTickQueue (attemptLoop op path call resolve failure
                         (Z.to_nat MAX_RETRIES) 1 None w).2 = nextTickQueue w).
  { intros A B op path call resolve failure.
    destruct (attemptLoop_run op path call resolve failure w)
      as (evs & Hlog & Hs & Hp & Hh & Hq & Hsl & Hat & _).
    exists evs. split; [done|]. rewrite Hat.
    assert (Hlen : (length (sleepsIn evs) ≤ 2)%nat
                   ∧ foldr Z.add 0 (sleepsIn evs) ≤ 225).
    { destruct Hsl as [Heq|[Heq|Heq]]; rewrite Heq; simpl; lia. }
    split; [lia|]. split; [done|]. split; [done|].
    split; [apply Hlen|]. done. }
  destruct o as [path enc|path|path]; unfold thrownBy; rewrite thrownOf_snd;
    apply Hgen.
Qed.


Lemma file_or_directory (mode : Z) :
  (Z.land mode S_IFMT =? S_IFREG) && (Z.land mode S_IFMT =? S_IFDIR) = false.
Proof.
  destruct (Z.land mode S_IFMT =? S_IFREG) eqn:H; [|done].
  apply Z.eqb_eq in H. rewrite H. done.
Qed.

(** X4. No stat result and no directory entry of the remote provider is
    both a file and a directory, and each carries its modification time as
    its creation time (zero for a stat whose attributes have no
    modification time). *)
Theorem file_type_flags (w : World Chan) :
  (∀ filePath result,
      (stat sftp filePath w).1 = Returned result →
      isFile result && isDirectory result = false
      ∧ birthtimeMs result = mtimeMs result)
  ∧ (∀ dirPath entries,
        (readdir sftp dirPath w).1 = Returned entries →
        Forall (fun d => dirent_isFile d && dirent_isDirectory d = false
                         ∧ dirent_birthtimeMs d = dirent_mtimeMs d) entries)
  ∧ (∀ mode size, mtimeMs (statResult (MkStats mode size None)) = 0)
  ∧ (∀ mode size t, mtimeMs (statResult (MkStats mode size (Some t))) = t * 1000).
Proof.
  split; [|split; [|split]].
  - intros filePath result Hr. unfold stat in *.
    destruct (attemptLoop_run OpStat filePath (sftp_stat sftp filePath)
                statResult ("Failed to stat: " +:+ filePath) w)
      as (evs & _ & _ & _ & _ & _ & _ & _ & [(a & c & Hc & Hres & _)
                                            |(e & c & Hc & Hres & _)]);
      rewrite Hres in Hr; simplify_eq.
    split; [apply file_or_directory|done].
  - intros dirPath entries Hr. unfold readdir in *.
    destruct (attemptLoop_run OpReaddir dirPath (sftp_readdir sftp dirPath)
                (map direntOf) ("Failed to read directory: " +:+ dirPath) w)
      as (evs & _ & _ & _ & _ & _ & _ & _ & [(a & c & Hc & Hres & _)
                                            |(e & c & Hc & Hres & _)]);
      rewrite Hres in Hr; simplify_eq.
    clear. induction a as [|item items IH]; simpl; constructor; [|done].
    split; [apply file_or_directory|done].
  - done.
  - done.
Qed.

(** X5. [exists] answers after a single channel call unless the first
    answer to its [stat] is a transient error: true when the channel
    resolves, false when it rejects with an error that is not transient. *)
Theorem exists_single_call (filePath : string) (w : World Chan) :
  (channelError sftp (Stat filePath) (chan w) = None →
   (exists_ sftp filePath w).1 = true
   ∧ log (exists_ sftp filePath w).2 = log w ++ [EvSftp OpStat filePath None])
  ∧ (∀ e, channelError sftp (Stat filePath) (chan w) = Some e →
          classifySftpError e ≠ transient →
          (exists_ sftp filePath w).1 = false
          ∧ log (exists_ sftp filePath w).2
            = log w ++ [EvSftp OpStat filePath (Some e)]).
Proof.
  split.
  - simpl. intros Hc. unfold exists_, stat.
    change (Z.to_nat MAX_RETRIES) with 3%nat.
    destruct (sftp_stat sftp filePath (chan w)) as [[e|a] c] eqn:Hcall;
      simpl in Hc; [done|].
    by rewrite (SshFacts.attemptLoop_resolves _ _ _ _ _ _ _ _ _ a c).
  - simpl. intros e Hc Hk. unfold exists_, stat.
    change (Z.to_nat MAX_RETRIES) with 3%nat.
    destruct (sftp_stat sftp filePath (chan w)) as [[e'|a] c] eqn:Hcall;
      simpl in Hc; [|done]. injection Hc as ->.
    rewrite (SshFacts.attemptLoop_gives_up _ _ _ _ _ _ _ _ _ e c) by done.
    destruct (classifySftpError e); done.
Qed.

(** ** Streams *)

(** X6. The stream [createReadStream] hands back is a new one, and the
    streams handed out before are as they were; nothing goes to the trace,
    and the pipes, the error handlers and the queued callbacks are only
    added to. *)
Theorem createReadStream_frame (filePath : string)
    (opts : option ReadStreamOptions) (w : World Chan) :
  (length (streams w) ≤ (createReadStream sftp filePath opts w).1)%nat
  ∧ (∀ i, (i < length (streams w))%nat →
          streams (createReadStream sftp filePath opts w).2 !! i
          = streams w !! i)
  ∧ log (createReadStream sftp filePath opts w).2 = log w
  ∧ pipes w `prefix_of` pipes (createReadStream sftp filePath opts w).2
  ∧ errorHandlers w
    `prefix_of` errorHandlers (createReadStream sftp filePath opts w).2
  ∧ nextTickQueue w
    `prefix_of` nextTickQueue (createReadStream sftp filePath opts w).2.
Proof.
  unfold createReadStream. simpl.
  destruct (sftp_createReadStream sftp filePath _ (chan w))
    as [[err|sftpStream] c]; simpl.
  - split; [lia|]. split; [intros i Hi; by apply lookup_app_l|].
    split; [done|]. split; [done|]. split; [done|]. by apply prefix_app_r.
  - destruct (pipe_throws sftpStream) as [err|]; simpl.
    + split; [rewrite length_app; simpl; lia|].
      split.
      { intros i Hi. rewrite lookup_app_l by (rewrite length_app; simpl; lia).
        by apply lookup_app_l. }
      split; [done|]. split; [done|]. split; [done|]. by apply prefix_app_r.
    + destruct (on_throws sftpStream) as [err|]; simpl.
      * split; [rewrite length_app; simpl; lia|].
        split.
        { intros i Hi. rewrite lookup_app_l by (rewrite length_app; simpl; lia).
          by apply lookup_app_l. }
        split; [done|]. split; [by apply prefix_app_r|]. split; [done|].
        by apply prefix_app_r.
      * split; [lia|]. split; [intros i Hi; by apply lookup_app_l|].
        split; [done|]. split; [by apply prefix_app_r|].
        split; [by apply prefix_app_r|]. done.
Qed.

(** Handlers of other channel streams, and handlers about other
    PassThroughs, leave a PassThrough as it is. *)
Lemma handlers_leave_alone (src : nat) (err : JsError) (hs : list (nat * nat))
    (s : nat) :
  ∀ l : list StreamStatus,
    Forall (fun h => h.2 ≠ s) hs →
    foldl (fun l h => if Nat.eqb h.1 src then destroyStream h.2 err l else l) l hs
    !! s = l !! s.
Proof.
  induction hs as [|h hs IH]; intros l Hhs; [done|].
  apply Forall_cons in Hhs as [Hh Hhs]. simpl. rewrite IH by done.
  destruct (Nat.eqb h.1 src); [|done].
  by apply SshFacts.destroyStream_other.
Qed.

(** X7. When the set-up of [createReadStream] goes through, an ['error']
    that the channel stream emits afterwards destroys the stream that was
    handed back with that error. *)
Theorem stream_error_is_forwarded (filePath : string)
    (opts : option ReadStreamOptions) (w : World Chan)
    (sftpStream : SftpStream) (err : JsError) :
  handlersAllocated w →
  (sftp_createReadStream sftp filePath
     {| opt_start := opts ≫= opt_start; opt_encoding := opts ≫= opt_encoding |}
     (chan w)).1 = inr sftpStream →
  pipe_throws sftpStream = None →
  on_throws sftpStream = None →
  streams (createReadStream sftp filePath opts w).2
  !! (createReadStream sftp filePath opts w).1 = Some Flowing
  ∧ streams (sftpStreamError (sftpStream_id sftpStream) err
               (createReadStream sftp filePath opts w).2)
    !! (createReadStream sftp filePath opts w).1 = Some (Errored err)
  ∧ (sftpStream_id sftpStream, (createReadStream sftp filePath opts w).1)
    ∈ pipes (createReadStream sftp filePath opts w).2.
Proof.
  intros Halloc Hcall Hpipe Hon. unfold createReadStream. simpl.
  destruct (sftp_createReadStream sftp filePath _ (chan w)) as [r c].
  simpl in Hcall. subst r. rewrite Hpipe, Hon. simpl.
  assert (Hlive : (streams w ++ [Flowing]) !! length (streams w) = Some Flowing)
    by by apply list_lookup_middle.
  split; [done|]. split.
  - rewrite foldl_app. simpl. rewrite Nat.eqb_refl.
    apply SshFacts.destroyStream_flowing.
    rewrite handlers_leave_alone; [done|].
    eapply Forall_impl; [exact Halloc|]. intros h Hh. simpl in *. lia.
  - set_solver.
Qed.

End Runs.


Lemma file_type_flags_witness :
  Forall (fun d => dirent_isFile d && dirent_isDirectory d = false
                   ∧ dirent_birthtimeMs d = dirent_mtimeMs d)
    [MkFsDirent "rules" false true (Some 4096) (Some 1700000000000)
       (Some 1700000000000);
     MkFsDirent "CLAUDE.md" true false (Some 120) None None].
Proof.
  destruct (file_type_flags
              (flakyChannel 1 sftpFailure "text" regularFile listing)
              (MkWorld 0%nat [] [] [] [] [])) as (_ & Hdir & _).
  apply (Hdir "/project/.claude"). reflexivity.
Defined.

Lemma exists_single_call_witness :
  (exists_ (failingChannel sftpNoSuchFile) "/missing" freshWorld).1 = false
  ∧ log (exists_ (failingChannel sftpNoSuchFile) "/missing" freshWorld).2
    = log freshWorld ++ [EvSftp OpStat "/missing" (Some sftpNoSuchFile)].
Proof.
  destruct (exists_single_call (failingChannel sftpNoSuchFile) "/missing"
              freshWorld) as (_ & Hrejected).
  apply (Hrejected sftpNoSuchFile).
  - reflexivity.
  - vm_compute. discriminate.
Defined.

Lemma stream_error_is_forwarded_witness :
  streams (createReadStream (streamingChannel (MkSftpStream 7 None None))
             "/data/x" None freshWorld).2
  !! (createReadStream (streamingChannel (MkSftpStream 7 None None)) "/data/x"
        None freshWorld).1 = Some Flowing
  ∧ streams (sftpStreamError (sftpStream_id (MkSftpStream 7 None None))
               sftpFailure
               (createReadStream (streamingChannel (MkSftpStream 7 None None))
                  "/data/x" None freshWorld).2)
    !! (createReadStream (streamingChannel (MkSftpStream 7 None None))
          "/data/x" None freshWorld).1 = Some (Errored sftpFailure)
  ∧ (sftpStream_id (MkSftpStream 7 None None),
     (createReadStream (streamingChannel (MkSftpStream 7 None None)) "/data/x"
        None freshWorld).1)
    ∈ pipes (createReadStream (streamingChannel (MkSftpStream 7 None None))
               "/data/x" None freshWorld).2.
Proof.
  apply (stream_error_is_forwarded (streamingChannel (MkSftpStream 7 None None))
           "/data/x" None freshWorld (MkSftpStream 7 None None) sftpFailure).
  - unfold handlersAllocated. simpl. constructor.
  - reflexivity.
  - reflexivity.
  - reflexivity.
Defined.

End SshExtras.

(** * Further properties of the snapshot store *)
Module StorageExtras.
Import Renderer.

Lemma key_inj (a b : string) :
  STORAGE_KEY_PREFIX +:+ a = STORAGE_KEY_PREFIX +:+ b → a = b.
Proof. unfold STORAGE_KEY_PREFIX. simpl. intros H. by simplify_eq. Qed.

Lemma key_is_snapshot_key (contextId : string) :
  isSnapshotKey (STORAGE_KEY_PREFIX +:+ contextId) = true.
Proof. unfold isSnapshotKey, STORAGE_KEY_PREFIX. simpl. by destruct contextId. Qed.

(** What the three operations do to the records, without assumptions on
    IndexedDB: a save puts its record or nothing, a delete removes the
    record or nothing. *)
Lemma saveSnapshot_entries contextId snapshot (db : Idb) :
  entries (saveSnapshot contextId snapshot db)
  = match set_throws db (STORAGE_KEY_PREFIX +:+ contextId) with
    | Some _ => entries db
    | None => <[STORAGE_KEY_PREFIX +:+ contextId :=
                  MkStoredSnapshot snapshot (now db) SNAPSHOT_VERSION]>
                (entries db)
    end.
Proof. unfold saveSnapshot, idb_set. by destruct (set_throws db _). Qed.

Lemma deleteSnapshot_entries contextId (db : Idb) :
  entries (deleteSnapshot contextId db)
  = match del_throws db (STORAGE_KEY_PREFIX +:+ contextId) with
    | Some _ => entries db
    | None => delete (STORAGE_KEY_PREFIX +:+ contextId) (entries db)
    end.
Proof. unfold deleteSnapshot, idb_del. by destruct (del_throws db _). Qed.

Lemma loadSnapshot_entries contextId (db : Idb) :
  (loadSnapshot contextId db).2 = db
  ∨ (loadSnapshot contextId db).2 = deleteSnapshot contextId db.
Proof.
  unfold loadSnapshot. destruct (idb_get _ db) as [[stored|]|e]; auto.
  repeat case_match; auto.
Qed.

(** X8. A snapshot that [loadSnapshot] gives back is the one stored under
    the key of the context, not older than the TTL and of the current
    version, and the store is left as it was: whatever IndexedDB does, no
    expired snapshot and no snapshot of another version is ever given. *)
Theorem loadSnapshot_sound (contextId : string) (db db' : Idb)
    (s : ContextSnapshot) :
  loadSnapshot contextId db = (Some s, db') →
  db' = db
  ∧ ∃ stored,
      entries db !! (STORAGE_KEY_PREFIX +:+ contextId) = Some stored
      ∧ snapshot stored = s
      ∧ now db - timestamp stored ≤ SNAPSHOT_TTL_MS
      ∧ version stored = SNAPSHOT_VERSION.
Proof.
  unfold loadSnapshot, idb_get.
  destruct (get_throws db _); [done|].
  destruct (entries db !! _) as [stored|] eqn:Hs; [|done].
  destruct (now db - timestamp stored >? SNAPSHOT_TTL_MS) eqn:Hage; [done|].
  destruct (version stored =? SNAPSHOT_VERSION) eqn:Hv; [|done].
  simpl. intros [= <- <-]. split; [done|]. exists stored.
  rewrite Z.gtb_ltb in Hage. apply Z.ltb_ge in Hage. apply Z.eqb_eq in Hv.
  done.
Qed.

Lemma loadSnapshot_sound_witness :
  healthyIdb {[ "context-snapshot:ssh-db1" := storedAt1000 ]} 2000
  = healthyIdb {[ "context-snapshot:ssh-db1" := storedAt1000 ]} 2000
  ∧ ∃ stored,
      entries (healthyIdb {[ "context-snapshot:ssh-db1" := storedAt1000 ]} 2000)
      !! (STORAGE_KEY_PREFIX +:+ "ssh-db1") = Some stored
      ∧ snapshot stored = snapshotAt "ssh-db1" 1000
      ∧ now (healthyIdb {[ "context-snapshot:ssh-db1" := storedAt1000 ]} 2000)
        - timestamp stored ≤ SNAPSHOT_TTL_MS
      ∧ version stored = SNAPSHOT_VERSION.
Proof.
  apply (loadSnapshot_sound "ssh-db1"
           (healthyIdb {[ "context-snapshot:ssh-db1" := storedAt1000 ]} 2000)).
  reflexivity.
Defined.

Lemma storage_keeps_clock contextId snapshot (db : Idb) :
  (now (saveSnapshot contextId snapshot db) = now db
   ∧ get_throws (saveSnapshot contextId snapshot db) = get_throws db
   ∧ set_throws (saveSnapshot contextId snapshot db) = set_throws db
   ∧ del_throws (saveSnapshot contextId snapshot db) = del_throws db)
  ∧ (now (deleteSnapshot contextId db) = now db
     ∧ get_throws (deleteSnapshot contextId db) = get_throws db
     ∧ set_throws (deleteSnapshot contextId db) = set_throws db
     ∧ del_throws (deleteSnapshot contextId db) = del_throws db)
  ∧ (now (loadSnapshot contextId db).2 = now db
     ∧ get_throws (loadSnapshot contextId db).2 = get_throws db
     ∧ set_throws (loadSnapshot contextId db).2 = set_throws db
     ∧ del_throws (loadSnapshot contextId db).2 = del_throws db).
Proof.
  assert (Hdel : now (deleteSnapshot contextId db) = now db
     ∧ get_throws (deleteSnapshot contextId db) = get_throws db
     ∧ set_throws (deleteSnapshot contextId db) = set_throws db
     ∧ del_throws (deleteSnapshot contextId db) = del_throws db).
  { unfold deleteSnapshot, idb_del. by destruct (del_throws db _). }
  split; [|split; [done|]].
  - unfold saveSnapshot, idb_set. by destruct (set_throws db _).
  - destruct (loadSnapshot_entries contextId db) as [-> | ->]; done.
Qed.

Lemma save_other_key (a b : string) snapshot (db : Idb) :
  a ≠ b →
  entries (saveSnapshot a snapshot db) !! (STORAGE_KEY_PREFIX +:+ b)
  = entries db !! (STORAGE_KEY_PREFIX +:+ b).
Proof.
  intros Hne. rewrite saveSnapshot_entries. destruct (set_throws db _); [done|].
  apply lookup_insert_ne. intros H. by apply key_inj in H.
Qed.

Lemma delete_other_key (a b : string) (db : Idb) :
  a ≠ b →
  entries (deleteSnapshot a db) !! (STORAGE_KEY_PREFIX +:+ b)
  = entries db !! (STORAGE_KEY_PREFIX +:+ b).
Proof.
  intros Hne. rewrite deleteSnapshot_entries. destruct (del_throws db _); [done|].
  apply lookup_delete_ne. intros H. by apply key_inj in H.
Qed.

Lemma load_other_key (a b : string) (db : Idb) :
  a ≠ b →
  entries (loadSnapshot a db).2 !! (STORAGE_KEY_PREFIX +:+ b)
  = entries db !! (STORAGE_KEY_PREFIX +:+ b).
Proof.
  intros Hne. destruct (loadSnapshot_entries a db) as [-> | ->]; [done|].
  by apply delete_other_key.
Qed.

(** What a load gives depends on the record under its key, the clock and
    whether the read rejects, and on nothing else. *)
Lemma loadSnapshot_fst_ext contextId (db1 db2 : Idb) :
  entries db1 !! (STORAGE_KEY_PREFIX +:+ contextId)
  = entries db2 !! (STORAGE_KEY_PREFIX +:+ contextId) →
  now db1 = now db2 →
  get_throws db1 (STORAGE_KEY_PREFIX +:+ contextId)
  = get_throws db2 (STORAGE_KEY_PREFIX +:+ contextId) →
  (loadSnapshot contextId db1).1 = (loadSnapshot contextId db2).1.
Proof.
  intros He Hn Hg. unfold loadSnapshot, idb_get. rewrite He, Hn, Hg.
  destruct (get_throws db2 _); [done|].
  destruct (entries db2 !! _) as [stored|]; [|done].
  by repeat case_match.
Qed.


(** X9. The operations on one context leave the record of every other
    context alone: saving, deleting or loading the snapshot of [a] does
    not change what is stored for [b]. *)
Theorem contexts_are_isolated (a b : string) (snapshot : ContextSnapshot)
    (db : Idb) :
  a ≠ b →
  entries (saveSnapshot a snapshot db) !! (STORAGE_KEY_PREFIX +:+ b)
  = entries db !! (STORAGE_KEY_PREFIX +:+ b)
  ∧ entries (deleteSnapshot a db) !! (STORAGE_KEY_PREFIX +:+ b)
    = entries db !! (STORAGE_KEY_PREFIX +:+ b)
  ∧ entries (loadSnapshot a db).2 !! (STORAGE_KEY_PREFIX +:+ b)
    = entries db !! (STORAGE_KEY_PREFIX +:+ b).
Proof.
  intros Hne. split; [|split].
  - by apply save_other_key.
  - by apply delete_other_key.
  - by apply load_other_key.
Qed.

Lemma contexts_are_isolated_witness :
  entries (saveSnapshot "local" (snapshotAt "local" 5000) idbSixMinutesLater)
  !! (STORAGE_KEY_PREFIX +:+ "ssh-db1")
  = entries idbSixMinutesLater !! (STORAGE_KEY_PREFIX +:+ "ssh-db1")
  ∧ entries (deleteSnapshot "local" idbSixMinutesLater)
    !! (STORAGE_KEY_PREFIX +:+ "ssh-db1")
    = entries idbSixMinutesLater !! (STORAGE_KEY_PREFIX +:+ "ssh-db1")
  ∧ entries (loadSnapshot "local" idbSixMinutesLater).2
    !! (STORAGE_KEY_PREFIX +:+ "ssh-db1")
    = entries idbSixMinutesLater !! (STORAGE_KEY_PREFIX +:+ "ssh-db1").
Proof.
  apply (contexts_are_isolated "local" "ssh-db1" (snapshotAt "local" 5000)
           idbSixMinutesLater).
  discriminate.
Defined.

(** X10. A snapshot saved at one time and loaded at a later one, with
    IndexedDB taking the write, the read and the delete of its key: up to
    five minutes later the load gives the snapshot back, whatever was
    stored under the key before, and leaves the store alone; after more
    than five minutes it gives nothing and the record is gone. *)
Theorem save_then_load (contextId : string) (snapshot : ContextSnapshot)
    (db : Idb) (later : Z) :
  set_throws db (STORAGE_KEY_PREFIX +:+ contextId) = None →
  get_throws db (STORAGE_KEY_PREFIX +:+ contextId) = None →
  del_throws db (STORAGE_KEY_PREFIX +:+ contextId) = None →
  (later - now db ≤ SNAPSHOT_TTL_MS →
   loadSnapshot contextId (setNow later (saveSnapshot contextId snapshot db))
   = (Some snapshot, setNow later (saveSnapshot contextId snapshot db)))
  ∧ (later - now db > SNAPSHOT_TTL_MS →
     (loadSnapshot contextId
        (setNow later (saveSnapshot contextId snapshot db))).1 = None
     ∧ entries (loadSnapshot contextId
                  (setNow later (saveSnapshot contextId snapshot db))).2
       !! (STORAGE_KEY_PREFIX +:+ contextId) = None).
Proof.
  intros Hset Hget Hdel.
  unfold saveSnapshot, idb_set. rewrite Hset. simpl.
  unfold loadSnapshot, idb_get, deleteSnapshot, idb_del. simpl.
  rewrite Hget, Hdel, lookup_insert_eq. simpl.
  split; intros Hage.
  - destruct (later - now db >? SNAPSHOT_TTL_MS) eqn:Hb; [|done].
    rewrite Z.gtb_ltb in Hb. apply Z.ltb_lt in Hb. lia.
  - destruct (later - now db >? SNAPSHOT_TTL_MS) eqn:Hb.
    + simpl. split; [done|]. apply lookup_delete_eq.
    + rewrite Z.gtb_ltb in Hb. apply Z.ltb_ge in Hb. lia.
Qed.

Lemma save_then_load_witness :
  loadSnapshot "local"
    (setNow 301000 (saveSnapshot "local" (snapshotAt "local" 5000)
                      (healthyIdb ∅ 1000)))
  = (Some (snapshotAt "local" 5000),
     setNow 301000 (saveSnapshot "local" (snapshotAt "local" 5000)
                      (healthyIdb ∅ 1000))).
Proof.
  destruct (save_then_load "local" (snapshotAt "local" 5000) (healthyIdb ∅ 1000)
              301000) as (Hfresh & _).
  - reflexivity.
  - reflexivity.
  - reflexivity.
  - apply Hfresh. vm_compute. discriminate.
Defined.

(** ** The sweep *)

Lemma sweepKey_spec (t : Z) (db : Idb) (key : string) :
  sweepKey t db key
  = if swept t db key then setEntries (delete key (entries db)) db else db.
Proof.
  unfold sweepKey, swept, idb_get, idb_del.
  destruct (get_throws db key); [done|].
  destruct (entries db !! key) as [stored|]; [|done].
  destruct (del_throws db key); simpl; by destruct (_ >? _).
Qed.

Lemma swept_after (t : Z) (db : Idb) (key k : string) :
  swept t (sweepKey t db key) k
  = if decide (k = key) then false else swept t db k.
Proof.
  rewrite sweepKey_spec. destruct (swept t db key) eqn:Hs.
  - unfold swept at 1. simpl. destruct (decide (k = key)) as [->|Hne].
    + rewrite lookup_delete_eq. by destruct (get_throws db key).
    + rewrite lookup_delete_ne by done. done.
  - destruct (decide (k = key)) as [->|Hne]; done.
Qed.

(** The records after the turns for a list of keys. *)
Lemma sweep_lookup (t : Z) (keys : list string) :
  ∀ (db : Idb) (k : string),
    entries (foldl (sweepKey t) db keys) !! k
    = if bool_decide (k ∈ keys) && swept t db k then None else entries db !! k.
Proof.
  induction keys as [|key keys IH]; intros db k.
  - by rewrite bool_decide_eq_false_2 by set_solver.
  - change (foldl (sweepKey t) db (key :: keys))
      with (foldl (sweepKey t) (sweepKey t db key) keys).
    rewrite IH, swept_after. destruct (decide (k = key)) as [->|Hne].
    + rewrite andb_false_r, (bool_decide_eq_true_2 (key ∈ key :: keys))
        by set_solver.
      simpl. rewrite sweepKey_spec.
      destruct (swept t db key); [|done]. simpl. apply lookup_delete_eq.
    + assert (bool_decide (k ∈ key :: keys) = bool_decide (k ∈ keys)) as ->.
      { apply bool_decide_ext. set_solver. }
      assert (entries (sweepKey t db key) !! k = entries db !! k) as ->; [|done].
      rewrite sweepKey_spec. destruct (swept t db key); [|done].
      simpl. by apply lookup_delete_ne.
Qed.

Lemma sweep_keeps_rest (t : Z) (keys : list string) :
  ∀ db : Idb,
    now (foldl (sweepKey t) db keys) = now db
    ∧ get_throws (foldl (sweepKey t) db keys) = get_throws db
    ∧ set_throws (foldl (sweepKey t) db keys) = set_throws db
    ∧ del_throws (foldl (sweepKey t) db keys) = del_throws db.
Proof.
  induction keys as [|key keys IH]; intros db; simpl; [done|].
  destruct (IH (sweepKey t db key)) as (-> & -> & -> & ->).
  rewrite sweepKey_spec. by destruct (swept t db key).
Qed.

(** X11. [cleanupExpired] only ever removes records, and only records
    under snapshot keys that are older than the TTL; records within the
    TTL (of whatever version) and records under other keys stay. When
    [keys()] answers, every expired snapshot record whose read and delete
    IndexedDB accepts is gone afterwards. *)
Theorem cleanupExpired_sweeps (keys_throws : option JsError) (db : Idb) :
  now (cleanupExpired keys_throws db) = now db
  ∧ (∀ k,
        entries (cleanupExpired keys_throws db) !! k = entries db !! k
        ∨ (entries (cleanupExpired keys_throws db) !! k = None
           ∧ isSnapshotKey k = true
           ∧ ∃ stored, entries db !! k = Some stored
                       ∧ now db - timestamp stored > SNAPSHOT_TTL_MS))
  ∧ (keys_throws = None →
     ∀ k stored,
       entries (cleanupExpired keys_throws db) !! k = Some stored →
       isSnapshotKey k = true →
       get_throws db k = None →
       del_throws db k = None →
       now db - timestamp stored ≤ SNAPSHOT_TTL_MS).
Proof.
  unfold cleanupExpired. destruct keys_throws as [e|]; simpl.
  { split; [done|]. split; [by left|done]. }
  split; [apply sweep_keeps_rest|]. split.
  - intros k. rewrite sweep_lookup.
    destruct (bool_decide _) eqn:Hin; simpl; [|by left].
    destruct (swept (now db) db k) eqn:Hs; [|by left]. right.
    apply bool_decide_eq_true in Hin.
    apply list_elem_of_filter in Hin as [Hkey _].
    split; [done|]. split; [by apply Is_true_true|].
    unfold swept in Hs. destruct (get_throws db k); [done|].
    destruct (entries db !! k) as [stored|]; [|done].
    destruct (del_throws db k); [done|]. exists stored. split; [done|].
    rewrite Z.gtb_ltb in Hs. apply Z.ltb_lt in Hs. lia.
  - intros _ k stored Hk Hkey Hget Hdel. rewrite sweep_lookup in Hk.
    destruct (bool_decide _) eqn:Hin; simpl in Hk.
    + destruct (swept (now db) db k) eqn:Hs; [done|].
      unfold swept in Hs. rewrite Hget, Hk, Hdel in Hs.
      rewrite Z.gtb_ltb in Hs. apply Z.ltb_ge in Hs. lia.
    + exfalso. apply bool_decide_eq_false in Hin. apply Hin.
      apply list_elem_of_filter. split; [by apply Is_true_true|].
      apply elem_of_elements, elem_of_dom. eauto.
Qed.

(** Scenario: six minutes after a save for "ssh-db1", with a record for
    "local" that is forty seconds old and a record under another key. *)
Lemma cleanupExpired_sweeps_witness :
  entries (cleanupExpired None mixedIdb) !! "context-snapshot:ssh-db1" = None
  ∧ entries (cleanupExpired None mixedIdb) !! "context-snapshot:local"
    = entries mixedIdb !! "context-snapshot:local"
  ∧ entries (cleanupExpired None mixedIdb) !! "other"
    = entries mixedIdb !! "other".
Proof.
  destruct (cleanupExpired_sweeps None mixedIdb) as (_ & Honly & Hgone).
  split; [|split].
  - destruct (entries (cleanupExpired None mixedIdb)
              !! "context-snapshot:ssh-db1") as [stored|] eqn:Hk; [|done].
    exfalso.
    assert (Hfresh : now mixedIdb - timestamp stored ≤ SNAPSHOT_TTL_MS).
    { apply (Hgone eq_refl "context-snapshot:ssh-db1" stored Hk);
        reflexivity. }
    destruct (Honly "context-snapshot:ssh-db1") as [Hsame|(Hnone & _)].
    + rewrite Hk in Hsame. vm_compute in Hsame. injection Hsame as ->.
      vm_compute in Hfresh. by apply Hfresh.
    + by rewrite Hk in Hnone.
  - destruct (Honly "context-snapshot:local")
      as [Hsame|(_ & _ & stored & Hs & Hold)]; [done|].
    vm_compute in Hs. injection Hs as <-. vm_compute in Hold. done.
  - destruct (Honly "other") as [Hsame|(_ & Hkey & _)]; [done|].
    vm_compute in Hkey. done.
Defined.

End StorageExtras.

(** * Further properties of the context slice *)
Module SliceExtras.
Import Renderer.

(** ** validateSnapshot *)

Lemma filter_idemp {A} (P : A → Prop) `{!∀ x, Decision (P x)} (l : list A) :
  filter P (filter P l) = filter P l.
Proof. rewrite list_filter_filter. apply list_filter_iff. tauto. Qed.

Lemma filter_all {A} (P : A → Prop) `{!∀ x, Decision (P x)} (l : list A) :
  Forall P l → filter P l = l.
Proof.
  induction 1 as [|x l Hx Hl IH]; [done|].
  rewrite filter_cons_True by done. by rewrite IH.
Qed.

Lemma fmap_fixed {A} (f : A → A) (l : list A) :
  Forall (fun x => f x = x) l → f <$> l = l.
Proof. induction 1 as [|x l Hx Hl IH]; [done|]. csimpl. by rewrite Hx, IH. Qed.

Lemma hasTabWithId_head (tabs : list Tab) (t : Tab) :
  head tabs = Some t → hasTabWithId tabs (Some (tab_id t)) = true.
Proof.
  intros Hh. apply RendererFacts.hasTabWithId_true. exists t.
  split; [by apply head_Some_elem_of|done].
Qed.

(** The active tab of a pane after [validatePane] names one of its tabs,
    unless the pane has none. *)
Lemma paneActive_names_tab (tabs : list Tab) (a : option string) :
  tabs ≠ [] →
  hasTabWithId tabs (if hasTabWithId tabs a then a else firstTabId tabs) = true.
Proof.
  intros Hne. destruct (hasTabWithId tabs a) eqn:Ha; [done|].
  destruct tabs as [|t tabs]; [done|]. simpl.
  by rewrite String.eqb_refl.
Qed.

Lemma validatePane_idemp (vp vw : gset string) (p : Pane) :
  validatePane vp vw (validatePane vp vw p) = validatePane vp vw p.
Proof.
  unfold validatePane. cbn [pane_id pane_tabs pane_activeTabId
    pane_selectedTabIds pane_widthFraction].
  rewrite !filter_idemp.
  set (tabs := filter (fun tab => keepTab vp vw tab) (pane_tabs p)).
  f_equal.
  - destruct (hasTabWithId tabs (pane_activeTabId p)) eqn:Ha.
    + by rewrite Ha.
    + destruct tabs as [|t tabs'] eqn:Htabs; [done|].
      cbn [firstTabId head fmap option_fmap option_map].
      assert (hasTabWithId (t :: tabs') (Some (tab_id t)) = true) as ->; [|done].
      simpl. by rewrite String.eqb_refl.
Qed.

Lemma validatedPanes_fixed snapshot freshProjects freshRepoGroups :
  Forall (fun p => validatePane (validProjectIdsOf freshProjects)
                     (validWorktreeIdsOf freshRepoGroups) p = p
                   ∧ pane_tabs p ≠ [])
    (validatedPanesOf snapshot freshProjects freshRepoGroups).
Proof.
  apply Forall_forall. intros p Hp.
  apply RendererFacts.validatedPanes_elem in Hp as (Hne & p0 & _ & ->).
  split; [apply validatePane_idemp|done].
Qed.

(** Filtering the panes that were left gives the same panes. *)
Lemma validatedPanes_again freshProjects freshRepoGroups (ps : list Pane) :
  Forall (fun p => validatePane (validProjectIdsOf freshProjects)
                     (validWorktreeIdsOf freshRepoGroups) p = p
                   ∧ pane_tabs p ≠ []) ps →
  filter (fun pane => bool_decide (0 < length (pane_tabs pane))%nat)
    (validatePane (validProjectIdsOf freshProjects)
       (validWorktreeIdsOf freshRepoGroups) <$> ps) = ps.
Proof.
  intros Hps. rewrite fmap_fixed.
  - apply filter_all. eapply Forall_impl; [exact Hps|].
    intros p [_ Hne]. apply Is_true_true, RendererFacts.positive_length. done.
  - eapply Forall_impl; [exact Hps|]. by intros p [Hp _].
Qed.

(** The fields [validateSnapshot] passes through. *)
Lemma validateSnapshot_passes snapshot freshProjects freshRepoGroups r :
  validateSnapshot snapshot freshProjects freshRepoGroups = Returned r →
  viewMode r = viewMode (fields snapshot)
  ∧ sessions r = sessions (fields snapshot)
  ∧ selectedSessionId r = selectedSessionId (fields snapshot)
  ∧ sessionsCursor r = sessionsCursor (fields snapshot)
  ∧ sessionsHasMore r = sessionsHasMore (fields snapshot)
  ∧ sessionsTotalCount r = sessionsTotalCount (fields snapshot)
  ∧ pinnedSessionIds r = pinnedSessionIds (fields snapshot)
  ∧ notifications r = notifications (fields snapshot)
  ∧ unreadCount r = unreadCount (fields snapshot)
  ∧ sidebarCollapsed r = sidebarCollapsed (fields snapshot).
Proof.
  unfold validateSnapshot.
  destruct (hasPaneWithId _ _); [|destruct (head _)];
    intros Hr; simplify_eq; done.
Qed.

Lemma Workspace_ext (a b : Workspace) :
  projects a = projects b →
  selectedProjectId a = selectedProjectId b →
  repositoryGroups a = repositoryGroups b →
  selectedRepositoryId a = selectedRepositoryId b →
  selectedWorktreeId a = selectedWorktreeId b →
  viewMode a = viewMode b →
  sessions a = sessions b →
  selectedSessionId a = selectedSessionId b →
  sessionsCursor a = sessionsCursor b →
  sessionsHasMore a = sessionsHasMore b →
  sessionsTotalCount a = sessionsTotalCount b →
  pinnedSessionIds a = pinnedSessionIds b →
  notifications a = notifications b →
  unreadCount a = unreadCount b →
  openTabs a = openTabs b →
  activeTabId a = activeTabId b →
  selectedTabIds a = selectedTabIds b →
  activeProjectId a = activeProjectId b →
  paneLayout a = paneLayout b →
  sidebarCollapsed a = sidebarCollapsed b →
  a = b.
Proof. destruct a, b. simpl. intros. by subst. Qed.

(** The selection rule, applied to its own result. *)
Lemma selection_idemp (ids : gset string) (x : option string) :
  (if truthy (if truthy x && has ids x then x else None)
      && has ids (if truthy x && has ids x then x else None)
   then (if truthy x && has ids x then x else None) else None)
  = (if truthy x && has ids x then x else None).
Proof. destruct (truthy x && has ids x) eqn:H; [by rewrite H|done]. Qed.

(** The active tab rule, applied to its own result. *)
Lemma activeTab_idemp (tabs : list Tab) (a : option string) :
  (if truthy (if truthy a && negb (hasTabWithId tabs a)
              then firstTabId tabs else a)
      && negb (hasTabWithId tabs
                 (if truthy a && negb (hasTabWithId tabs a)
                  then firstTabId tabs else a))
   then firstTabId tabs
   else (if truthy a && negb (hasTabWithId tabs a) then firstTabId tabs else a))
  = (if truthy a && negb (hasTabWithId tabs a) then firstTabId tabs else a).
Proof.
  destruct (truthy a && negb (hasTabWithId tabs a)) eqn:H.
  - destruct tabs as [|t tabs]; [done|].
    cbn [firstTabId head fmap option_fmap option_map].
    assert (hasTabWithId (t :: tabs) (Some (tab_id t)) = true) as ->.
    { simpl. by rewrite String.eqb_refl. }
    by rewrite andb_false_r.
  - by rewrite H.
Qed.

(** X12. Validating what [validateSnapshot] gave, against the same fresh
    lists, gives it back unchanged: one pass leaves nothing for a second
    pass to remove or repair. *)
Theorem validateSnapshot_idempotent (snapshot : ContextSnapshot)
    (freshProjects : list Project) (freshRepoGroups : list RepositoryGroup)
    (meta : Metadata) :
  ∃ r,
    validateSnapshot snapshot freshProjects freshRepoGroups = Returned r
    ∧ validateSnapshot (MkContextSnapshot r meta) freshProjects freshRepoGroups
      = Returned r.
Proof.
  destruct (RendererFacts.validateSnapshot_fields snapshot freshProjects
              freshRepoGroups)
    as (r & first & Hr & Hhead & Htabs & Hpanes & Hfocus & Hsp & Hsw & Hrepo
        & Hap & Hat & Hst & Hproj & Hrg).
  exists r. split; [exact Hr|].
  destruct (RendererFacts.validateSnapshot_fields (MkContextSnapshot r meta)
              freshProjects freshRepoGroups)
    as (r2 & first2 & Hr2 & Hhead2 & Htabs2 & Hpanes2 & Hfocus2 & Hsp2 & Hsw2
        & Hrepo2 & Hap2 & Hat2 & Hst2 & Hproj2 & Hrg2).
  pose proof (validateSnapshot_passes _ _ _ _ Hr2)
    as (P1 & P2 & P3 & P4 & P5 & P6 & P7 & P8 & P9 & P10).
  rewrite Hr2. f_equal. cbn [fields] in *.
  assert (Htabs' : validTabsOf (MkContextSnapshot r meta) freshProjects
                     freshRepoGroups = openTabs r).
  { unfold validTabsOf at 1. cbn [fields]. rewrite Htabs. unfold validTabsOf.
    apply filter_idemp. }
  assert (Hfinal' : finalPanesOf (MkContextSnapshot r meta) freshProjects
                      freshRepoGroups = panes (paneLayout r)).
  { assert (Hval : validatedPanesOf (MkContextSnapshot r meta) freshProjects
                       freshRepoGroups
                     = validatedPanesOf snapshot freshProjects freshRepoGroups).
    { unfold validatedPanesOf at 1. cbn [fields]. rewrite Hpanes.
      destruct (RendererFacts.finalPanes_cases snapshot freshProjects
                  freshRepoGroups) as [[Hne Hfin]|[Hnil Hfin]]; rewrite Hfin.
      - apply validatedPanes_again, validatedPanes_fixed.
      - by rewrite Hnil. }
    rewrite Hpanes. unfold finalPanesOf. by rewrite Hval. }
  apply Workspace_ext; try congruence.
  - rewrite Hsp2, Hsp. apply selection_idemp.
  - rewrite Hsw2, Hsw. apply selection_idemp.
  - rewrite Hat2, Htabs', Hat, Htabs. apply activeTab_idemp.
  - rewrite Hst2, Htabs', Hst, Htabs. apply filter_idemp.
  - rewrite Hap2, Hsp2, Hap, Hsp, selection_idemp.
    destruct (truthy (activeProjectId (fields snapshot)) && _) eqn:Hc.
    + by rewrite Hc.
    + set (sp := if truthy (selectedProjectId (fields snapshot)) && _
                 then _ else None).
      by destruct (truthy sp && _).
  - assert (Hp2 : panes (paneLayout r2) = panes (paneLayout r)).
    { rewrite Hpanes2. exact Hfinal'. }
    assert (Hf2 : focusedPaneId (paneLayout r2) = focusedPaneId (paneLayout r)).
    { rewrite Hfocus2, Hfinal'.
      assert (hasPaneWithId (panes (paneLayout r))
                (focusedPaneId (paneLayout r)) = true) as ->; [|done].
      rewrite Hfocus, Hpanes.
      destruct (hasPaneWithId _ (focusedPaneId (paneLayout (fields snapshot))))
        eqn:Hh; [exact Hh|].
      apply RendererFacts.hasPaneWithId_true. exists first.
      split; [by apply head_Some_elem_of|done]. }
    assert (Hext : ∀ a b : PaneLayout,
               panes a = panes b → focusedPaneId a = focusedPaneId b → a = b).
    { intros [] []. simpl. intros. by subst. }
    by apply Hext.
Qed.

(** X13. What [validateSnapshot] returns hangs together: a non-empty
    active tab id names an open tab; every pane either has tabs, and then
    its active tab is one of them, or is the default pane standing alone;
    the selected tab ids of a pane name tabs of that pane; and the projects
    and repository groups are the fresh ones. *)
Theorem validated_state_is_consistent (snapshot : ContextSnapshot)
    (freshProjects : list Project) (freshRepoGroups : list RepositoryGroup) :
  ∃ r,
    validateSnapshot snapshot freshProjects freshRepoGroups = Returned r
    ∧ (∀ a, activeTabId r = Some a → a ≠ EmptyString →
            ∃ t, t ∈ openTabs r ∧ tab_id t = a)
    ∧ (∀ p, p ∈ panes (paneLayout r) →
            (pane_tabs p = [] →
             p = defaultPane ∧ panes (paneLayout r) = [defaultPane])
            ∧ (pane_tabs p ≠ [] →
               ∃ t, t ∈ pane_tabs p ∧ pane_activeTabId p = Some (tab_id t))
            ∧ (∀ id, id ∈ pane_selectedTabIds p →
                     ∃ t, t ∈ pane_tabs p ∧ tab_id t = id))
    ∧ projects r = freshProjects
    ∧ repositoryGroups r = freshRepoGroups.
Proof.
  destruct (RendererFacts.validateSnapshot_fields snapshot freshProjects
              freshRepoGroups)
    as (r & first & Hr & Hhead & Htabs & Hpanes & Hfocus & Hsp & Hsw & Hrepo
        & Hap & Hat & Hst & Hproj & Hrg).
  exists r. split; [exact Hr|]. split; [|split; [|done]].
  - intros a Ha Hne. rewrite <- Htabs in Hat. rewrite Hat in Ha. clear Hat.
    destruct (truthy (activeTabId (fields snapshot)) && _) eqn:Hc.
    + unfold firstTabId in Ha. destruct (openTabs r) as [|t l];
        [discriminate Ha|]. injection Ha as <-.
      exists t. split; [apply list_elem_of_here|done].
    + rewrite Ha in Hc.
      assert (truthy (Some a) = true) as Htr
          by (apply RendererFacts.truthy_Some; eauto).
      rewrite Htr, andb_true_l in Hc. apply negb_false_iff in Hc.
      apply RendererFacts.hasTabWithId_true in Hc as (t & Ht & Hid).
      exists t. split; [done|]. by injection Hid.
  - intros p Hp. rewrite Hpanes in Hp |- *.
    assert (Hp' : (p = defaultPane
                   ∧ finalPanesOf snapshot freshProjects freshRepoGroups
                     = [defaultPane])
                  ∨ (pane_tabs p ≠ []
                     ∧ ∃ p0, p = validatePane (validProjectIdsOf freshProjects)
                                   (validWorktreeIdsOf freshRepoGroups) p0)).
    { destruct (RendererFacts.finalPanes_cases snapshot freshProjects
                  freshRepoGroups) as [[Hne Hfin]|[Hnil Hfin]];
        rewrite Hfin in Hp |- *.
      - right. apply RendererFacts.validatedPanes_elem in Hp
          as (Hne' & p0 & _ & ->). eauto.
      - left. apply list_elem_of_singleton in Hp. done. }
    destruct Hp' as [[-> Hfin]|(Hne & p0 & ->)].
    + split; [done|]. split; [done|]. simpl. intros id Hid. set_solver.
    + split; [done|]. split.
      * intros _.
        pose proof (paneActive_names_tab _ (pane_activeTabId p0) Hne) as Hact.
        apply RendererFacts.hasTabWithId_true in Hact as (t & Ht & Hid).
        by exists t.
      * intros id Hid. cbn [validatePane pane_selectedTabIds] in Hid.
        apply list_elem_of_filter in Hid as [Hid _].
        apply Is_true_true, RendererFacts.hasTabWithId_true in Hid
          as (t & Ht & Heq). exists t. split; [done|]. by injection Heq.
Qed.

(** ** switchContext with any collaborators *)

Section AnySwitch.

Context {Ext : Type} (svc : Services Ext).
Context (getFullResetState : Workspace → Workspace).

Lemma validateSnapshot_not_thrown snapshot freshProjects freshRepoGroups e :
  validateSnapshot snapshot freshProjects freshRepoGroups ≠ Thrown e.
Proof.
  destruct (RendererFacts.validateSnapshot_fields snapshot freshProjects
              freshRepoGroups) as (r & first & Hr & _).
  rewrite Hr. done.
Qed.



(** The store when the [try] block throws, with a notification fetch that
    does not throw. *)
Lemma switchSteps_thrown_store state target (w : World Ext) e w1 :
  (∀ x, (svc_fetchNotifications svc x).1 = Returned tt) →
  switchSteps svc getFullResetState state target w = (Thrown e, w1) →
  store w1 = store w.
Proof.
  intros Hfetch.
  unfold switchSteps, fetchFresh, restore. unfold bind, invoke, settle, set.
  simpl. intros H.
  repeat (case_match; simplify_eq/=); try done;
    try (exfalso; by eapply validateSnapshot_not_thrown);
    try match goal with
        | Hf : svc_fetchNotifications svc ?x = (Thrown _, _) |- _ =>
            pose proof (Hfetch x) as Hx; rewrite Hf in Hx; done
        end.
Qed.

(** X15. A switch that fails is undone as far as the store goes: with a
    notification fetch that does not throw, the store after the failure is
    the store before the attempt with the flag down and no target, so the
    workspace fields are untouched. *)
Theorem failed_switch_leaves_workspace (target : string) (w : World Ext)
    (e : JsError) :
  target ≠ activeContextId (store w) →
  (∀ x, (svc_fetchNotifications svc x).1 = Returned tt) →
  switchFailure svc getFullResetState target w = Some e →
  store (switchContext svc getFullResetState target w)
  = abandonSwitch (store w).
Proof.
  intros Hne Hfetch Hfail. unfold switchFailure, switchContext in *.
  apply String.eqb_neq in Hne. rewrite Hne. rewrite RendererFacts.switch_run in *.
  destruct (switchSteps _ _ _ _ _) as [[u|e'] w1] eqn:Hrun; [done|].
  apply switchSteps_thrown_store in Hrun; [|done]. simpl. by rewrite Hrun.
Qed.

End AnySwitch.


Lemma failed_switch_leaves_workspace_witness :
  store (switchContext servicesAsyncFetch resetAll "ssh-db1"
           (worldOf initialState refusingBackend))
  = abandonSwitch (store (worldOf initialState refusingBackend)).
Proof.
  apply (failed_switch_leaves_workspace servicesAsyncFetch resetAll "ssh-db1"
           (worldOf initialState refusingBackend) ipcError).
  - discriminate.
  - intros x. reflexivity.
  - reflexivity.
Defined.

(** ** switchContext with contextStorage and a scripted main process *)

(** The IndexedDB after a switch: the save happened, and at most the load
    for the target after it. *)
Lemma switch_idb (getFullResetState : Workspace → Workspace) (target : string)
    (w : World Env) :
  target ≠ activeContextId (store w) →
  backend (ext (switchContext services getFullResetState target w))
  = backend (ext w)
  ∧ (idb (ext (switchContext services getFullResetState target w))
     = saveSnapshot (activeContextId (store w))
         (captureSnapshot (store w) (activeContextId (store w))
            (now (idb (ext w))))
         (idb (ext w))
     ∨ idb (ext (switchContext services getFullResetState target w))
       = (loadSnapshot target
            (saveSnapshot (activeContextId (store w))
               (captureSnapshot (store w) (activeContextId (store w))
                  (now (idb (ext w))))
               (idb (ext w)))).2).
Proof.
  intros Hne. unfold switchContext.
  apply String.eqb_neq in Hne. rewrite Hne.
  rewrite RendererFacts.switch_run.
  unfold switchSteps, fetchFresh, restore. unfold bind, invoke, settle, set.
  simpl.
  destruct (switch_result (backend (ext w)) target); simpl; [|by split; [|left]].
  destruct (projects_result (backend (ext w))); simpl;
    destruct (repositoryGroups_result (backend (ext w))); simpl;
    try by split; [|left].
  destruct (loadSnapshot target _) as [[snap|] db2] eqn:Hload; simpl.
  - destruct (validateSnapshot snap a0 a1); simpl.
    + destruct (fetchNotifications_result (backend (ext w))); simpl;
        by split; [|right].
    + by split; [|right].
  - destruct (fetchNotifications_result (backend (ext w))); simpl;
      by split; [|right].
Qed.

(** X16. Whatever the main process answers, when IndexedDB takes the write
    a switch to another context leaves, under the key of the context that
    was active, the snapshot of the workspace as it was on entry, stamped
    with the time of the switch and the current version. *)
Theorem outgoing_snapshot_is_saved (getFullResetState : Workspace → Workspace)
    (target : string) (w : World Env) :
  target ≠ activeContextId (store w) →
  set_throws (idb (ext w)) (STORAGE_KEY_PREFIX +:+ activeContextId (store w))
  = None →
  entries (idb (ext (switchContext services getFullResetState target w)))
  !! (STORAGE_KEY_PREFIX +:+ activeContextId (store w))
  = Some (MkStoredSnapshot
            (MkContextSnapshot (workspace (store w))
               (MkMetadata (activeContextId (store w)) (now (idb (ext w))) 1))
            (now (idb (ext w))) SNAPSHOT_VERSION).
Proof.
  intros Hne Hset.
  assert (Hsaved :
    entries (saveSnapshot (activeContextId (store w))
               (captureSnapshot (store w) (activeContextId (store w))
                  (now (idb (ext w))))
               (idb (ext w)))
    !! (STORAGE_KEY_PREFIX +:+ activeContextId (store w))
    = Some (MkStoredSnapshot
              (MkContextSnapshot (workspace (store w))
                 (MkMetadata (activeContextId (store w)) (now (idb (ext w))) 1))
              (now (idb (ext w))) SNAPSHOT_VERSION)).
  { rewrite StorageExtras.saveSnapshot_entries, Hset. apply lookup_insert_eq. }
  destruct (switch_idb getFullResetState target w Hne) as [_ [-> | ->]].
  - exact Hsaved.
  - rewrite StorageExtras.load_other_key by done. exact Hsaved.
Qed.

Lemma outgoing_snapshot_is_saved_witness :
  entries (idb (ext (switchContext services resetAll "ssh-db1"
                      (worldOf initialState refusingBackend))))
  !! (STORAGE_KEY_PREFIX
      +:+ activeContextId (store (worldOf initialState refusingBackend)))
  = Some (MkStoredSnapshot
            (MkContextSnapshot
               (workspace (store (worldOf initialState refusingBackend)))
               (MkMetadata
                  (activeContextId (store (worldOf initialState refusingBackend)))
                  (now (idb (ext (worldOf initialState refusingBackend)))) 1))
            (now (idb (ext (worldOf initialState refusingBackend))))
            SNAPSHOT_VERSION).
Proof.
  apply (outgoing_snapshot_is_saved resetAll "ssh-db1"
           (worldOf initialState refusingBackend)).
  - discriminate.
  - reflexivity.
Defined.

(** A switch against a main process that answers every call: the world
    it ends in. *)
Lemma switch_completes (getFullResetState : Workspace → Workspace)
    (target : string) (w : World Env) freshProjects freshRepoGroups :
  target ≠ activeContextId (store w) →
  switch_result (backend (ext w)) target = Returned tt →
  projects_result (backend (ext w)) = Returned freshProjects →
  repositoryGroups_result (backend (ext w)) = Returned freshRepoGroups →
  fetchNotifications_result (backend (ext w)) = Returned tt →
  switchContext services getFullResetState target w
  = MkWorld
      (MkAppState
         (match (loadSnapshot target
                   (saveSnapshot (activeContextId (store w))
                      (captureSnapshot (store w) (activeContextId (store w))
                         (now (idb (ext w))))
                      (idb (ext w)))).1 with
          | Some snap =>
              match validateSnapshot snap freshProjects freshRepoGroups with
              | Returned r => r
              | Thrown _ => workspace (store w)
              end
          | None =>
              emptyContextState getFullResetState freshProjects freshRepoGroups
                (workspace (store w))
          end)
         target false None (contextSnapshotsReady (store w))
         (availableContexts (store w)))
      (MkEnv
         (loadSnapshot target
            (saveSnapshot (activeContextId (store w))
               (captureSnapshot (store w) (activeContextId (store w))
                  (now (idb (ext w))))
               (idb (ext w)))).2
         (backend (ext w)))
      (calls w ++ [CallSaveSnapshot (activeContextId (store w));
                   CallContextSwitch target; CallGetProjects;
                   CallGetRepositoryGroups; CallLoadSnapshot target;
                   CallFetchNotifications]).
Proof.
  intros Hne Hsw Hp Hg Hn. unfold switchContext.
  apply String.eqb_neq in Hne. rewrite Hne.
  rewrite RendererFacts.switch_run.
  unfold switchSteps, fetchFresh, restore. unfold bind, invoke, settle, set.
  simpl. rewrite Hsw. simpl. rewrite Hp, Hg. simpl.
  destruct (loadSnapshot target _) as [[snap|] db2] eqn:Hload; simpl.
  - destruct (RendererFacts.validateSnapshot_fields snap freshProjects
                freshRepoGroups) as (r & first & Hr & _).
    rewrite Hr. simpl. rewrite Hn. simpl. unfold finalizeSwitch, setIdb. simpl.
    by rewrite <- !app_assoc.
  - rewrite Hn. simpl. unfold finalizeSwitch, setIdb. simpl.
    by rewrite <- !app_assoc.
Qed.

(** X17. A switch to another context, with the main process answering
    every call: the target becomes active with the flag down; when
    [loadSnapshot] gives a snapshot for the target the workspace becomes
    that snapshot validated against the fresh lists, and otherwise the
    empty context state with the fresh lists. *)
Theorem switch_restores_or_resets (getFullResetState : Workspace → Workspace)
    (target : string) (w : World Env) freshProjects freshRepoGroups :
  target ≠ activeContextId (store w) →
  switch_result (backend (ext w)) target = Returned tt →
  projects_result (backend (ext w)) = Returned freshProjects →
  repositoryGroups_result (backend (ext w)) = Returned freshRepoGroups →
  fetchNotifications_result (backend (ext w)) = Returned tt →
  activeContextId (store (switchContext services getFullResetState target w))
  = target
  ∧ isContextSwitching
      (store (switchContext services getFullResetState target w)) = false
  ∧ (∀ snap,
        (loadSnapshot target (idb (ext w))).1 = Some snap →
        validateSnapshot snap freshProjects freshRepoGroups
        = Returned
            (workspace
               (store (switchContext services getFullResetState target w))))
  ∧ ((loadSnapshot target (idb (ext w))).1 = None →
     workspace (store (switchContext services getFullResetState target w))
     = emptyContextState getFullResetState freshProjects freshRepoGroups
         (workspace (store w))).
Proof.
  intros Hne Hsw Hp Hg Hn.
  rewrite (switch_completes _ _ _ _ _ Hne Hsw Hp Hg Hn). simpl.
  assert (Hload :
    (loadSnapshot target
       (saveSnapshot (activeContextId (store w))
          (captureSnapshot (store w) (activeContextId (store w))
             (now (idb (ext w))))
          (idb (ext w)))).1
    = (loadSnapshot target (idb (ext w))).1).
  { apply StorageExtras.loadSnapshot_fst_ext.
    - by apply StorageExtras.save_other_key.
    - apply StorageExtras.storage_keeps_clock.
    - by destruct (StorageExtras.storage_keeps_clock (activeContextId (store w))
                     (captureSnapshot (store w) (activeContextId (store w))
                        (now (idb (ext w)))) (idb (ext w)))
        as ((_ & -> & _) & _). }
  rewrite Hload. split; [done|]. split; [done|]. split.
  - intros snap Hs. rewrite Hs.
    destruct (RendererFacts.validateSnapshot_fields snap freshProjects
                freshRepoGroups) as (r & first & Hr & _).
    by rewrite Hr.
  - intros Hs. by rewrite Hs.
Qed.

Lemma switch_restores_or_resets_witness :
  workspace (store (switchContext services resetAll "ssh-db1"
                      (worldOf initialState answeringBackend)))
  = emptyContextState resetAll [MkProject "p1" "alpha"] []
      (workspace (store (worldOf initialState answeringBackend))).
Proof.
  destruct (switch_restores_or_resets resetAll "ssh-db1"
              (worldOf initialState answeringBackend) [MkProject "p1" "alpha"] [])
    as (_ & _ & _ & Hreset).
  - discriminate.
  - reflexivity.
  - reflexivity.
  - reflexivity.
  - reflexivity.
  - apply Hreset. reflexivity.
Defined.



(** ** Initialisation *)

(** X19. Whatever rejects during [initializeContextSystem], the slice is
    marked ready afterwards, the workspace and the switch flag and target
    are as they were, the active context id is the old one or one the main
    process answered, and the available contexts are the old list, a list
    the main process answered, or the local context alone. *)
Theorem initialize_always_ready {Ext : Type} (isvc : InitServices Ext)
    (w : World Ext) :
  contextSnapshotsReady (store (initializeContextSystem isvc w)) = true
  ∧ workspace (store (initializeContextSystem isvc w)) = workspace (store w)
  ∧ isContextSwitching (store (initializeContextSystem isvc w))
    = isContextSwitching (store w)
  ∧ targetContextId (store (initializeContextSystem isvc w))
    = targetContextId (store w)
  ∧ (activeContextId (store (initializeContextSystem isvc w))
     = activeContextId (store w)
     ∨ ∃ x, (init_getActive isvc x).1
            = Returned (activeContextId (store (initializeContextSystem isvc w))))
  ∧ (availableContexts (store (initializeContextSystem isvc w))
     = availableContexts (store w)
     ∨ availableContexts (store (initializeContextSystem isvc w))
       = [MkContextInfo "local" "local"]
     ∨ ∃ x, (init_list isvc x).1
            = Returned (availableContexts (store (initializeContextSystem isvc w)))).
Proof.
  unfold initializeContextSystem, fetchAvailableContexts.
  destruct (init_isAvailable isvc (ext w)) as [[available|e] x]; simpl;
    [|by repeat split; left].
  destruct (init_getActive isvc _) as [[active|e] x2] eqn:Hactive; simpl;
    [|by repeat split; left].
  destruct (init_list isvc x2) as [[result|e] x3] eqn:Hlist; simpl.
  - repeat split.
    + right. eexists. by rewrite Hactive.
    + right. right. eexists. by rewrite Hlist.
  - repeat split.
    + right. eexists. by rewrite Hactive.
    + right. by left.
Qed.

(** ** Labels and icons *)

(** X20. The label of the context of a host is the host: for every host,
    [getContextLabel] of "ssh-" followed by the host gives the host back;
    "local" is labelled "Local"; an id of neither form is its own label. *)
Theorem label_of_ssh_context (host : string) :
  getContextLabel ("ssh-" +:+ host) = host
  ∧ getContextLabel "local" = "Local"
  ∧ (∀ contextId,
        contextId ≠ "local" → String.prefix "ssh-" contextId = false →
        getContextLabel contextId = contextId).
Proof.
  split; [|split].
  - unfold getContextLabel. simpl. by destruct host.
  - reflexivity.
  - intros contextId Hne Hp. unfold getContextLabel.
    apply String.eqb_neq in Hne. by rewrite Hne, Hp.
Qed.

Lemma label_of_ssh_context_witness :
  getContextLabel ("ssh-" +:+ "192.168.1.10") = "192.168.1.10"
  ∧ getContextLabel "local" = "Local"
  ∧ getContextLabel "staging" = "staging".
Proof.
  destruct (label_of_ssh_context "192.168.1.10") as (Hssh & Hlocal & Hother).
  split; [exact Hssh|]. split; [exact Hlocal|].
  apply Hother; [discriminate|reflexivity].
Defined.

(** X21. The badge shows the green connected icon for a context exactly
    when the context is not the local one, its id is "ssh-" followed by the
    connected host, and the connection state is "connected"; the local
    context always shows the monitor. With no host connected the host
    prints as "null". *)
Theorem badge_connected_iff (contextId connectionState : string)
    (connectedHost : option string) :
  (connectionStatusBadge contextId connectionState connectedHost = (Wifi, green)
   ↔ contextId ≠ "local"
     ∧ contextId = "ssh-" +:+ default "null" connectedHost
     ∧ connectionState = "connected")
  ∧ connectionStatusBadge "local" connectionState connectedHost
    = (Monitor, muted).
Proof.
  split; [|reflexivity]. unfold connectionStatusBadge.
  destruct (String.eqb_spec contextId "local") as [->|Hne].
  { split; [done|]. by intros [? _]. }
  destruct (String.eqb_spec contextId ("ssh-" +:+ default "null" connectedHost))
    as [Hhost|Hhost].
  - destruct (String.eqb_spec connectionState "connected") as [->|Hst].
    + done.
    + split; [|by intros (_ & _ & ?)].
      repeat (case_match; try done).
  - simpl. split; [done|]. by intros (_ & ? & _).
Qed.

End SliceExtras.

(** * Properties of the CLAUDE.md reader *)
Module ReaderExtras.
Import Ssh Reader.

(** ** Lines *)

Lemma append_empty (s : string) : EmptyString +:+ s = s.
Proof. reflexivity. Qed.

Lemma append_String (c : ascii) (a b : string) :
  String c a +:+ b = String c (a +:+ b).
Proof. reflexivity. Qed.

Lemma split_nonempty (sep : ascii) (s : string) : split sep s ≠ [].
Proof.
  destruct s as [|c s]; simpl; [done|].
  destruct (Ascii.eqb c sep); [done|]. by destruct (split sep s).
Qed.

Lemma join_cons_char (sep : string) (c : ascii) (l : string) (ls : list string) :
  join sep (String c l :: ls) = String c (join sep (l :: ls)).
Proof. by destruct ls. Qed.

Lemma join_split (sep : ascii) (s : string) :
  join (String sep EmptyString) (split sep s) = s.
Proof.
  induction s as [|c s IH]; [done|]. simpl.
  destruct (Ascii.eqb_spec c sep) as [->|Hne].
  - pose proof (split_nonempty sep s) as Hn.
    destruct (split sep s) as [|l ls]; [done|].
    change (join (String sep EmptyString) (EmptyString :: l :: ls))
      with (EmptyString +:+ String sep EmptyString
            +:+ join (String sep EmptyString) (l :: ls)).
    by rewrite IH.
  - pose proof (split_nonempty sep s) as Hn.
    destruct (split sep s) as [|l ls]; [done|].
    by rewrite join_cons_char, IH.
Qed.

Lemma join_take_prefix (sep : ascii) (s : string) (n : nat) :
  ∃ rest, s = join (String sep EmptyString) (take n (split sep s)) +:+ rest.
Proof.
  revert n. induction s as [|c s IH]; intros n.
  - exists EmptyString. by destruct n as [|[|n]].
  - destruct n as [|n]; [by eexists|]. simpl.
    pose proof (split_nonempty sep s) as Hn.
    destruct (Ascii.eqb_spec c sep) as [->|Hne].
    + simpl. destruct n as [|n].
      { rewrite take_0. by eexists. }
      destruct (IH (S n)) as [rest Hrest].
      destruct (split sep s) as [|l ls]; [done|]. simpl take.
      exists rest.
      change (join (String sep EmptyString) (EmptyString :: l :: take n ls))
        with (EmptyString +:+ String sep EmptyString
              +:+ join (String sep EmptyString) (l :: take n ls)).
      rewrite append_empty, !append_String, append_empty. by f_equal.
    + destruct (IH (S n)) as [rest Hrest].
      destruct (split sep s) as [|l ls]; [done|]. simpl take.
      exists rest. rewrite join_cons_char, append_String. by f_equal.
Qed.

Lemma split_join_take (sep : ascii) (s : string) (n : nat) :
  split sep (join (String sep EmptyString) (take (S n) (split sep s)))
  = take (S n) (split sep s).
Proof.
  revert n. induction s as [|c s IH]; intros n; [by destruct n|]. simpl.
  pose proof (split_nonempty sep s) as Hn.
  destruct (Ascii.eqb_spec c sep) as [->|Hne].
  - change (take (S n) (EmptyString :: split sep s))
      with (EmptyString :: take n (split sep s)).
    destruct n as [|n]; [by rewrite take_0|].
    specialize (IH n).
    destruct (split sep s) as [|l ls]; [done|]. simpl take in *.
    change (join (String sep EmptyString) (EmptyString :: l :: take n ls))
      with (String sep (join (String sep EmptyString) (l :: take n ls))).
    cbn [split]. rewrite Ascii.eqb_refl. by rewrite IH.
  - specialize (IH n).
    destruct (split sep s) as [|l ls]; [done|]. simpl take in *.
    rewrite join_cons_char. cbn [split].
    apply Ascii.eqb_neq in Hne. rewrite Hne. by rewrite IH.
Qed.

Lemma length_append (a b : string) :
  String.length (a +:+ b) = (String.length a + String.length b)%nat.
Proof.
  induction a as [|c a IH]; [done|]. rewrite append_String. simpl. by rewrite IH.
Qed.

(** ** Any provider *)

Section AnyProvider.

Context (homeDir : string) (path_join : list string → string)
  (countTokens : string → Z) (encodePath : string → string)
  (getClaudeBasePath : string) {W : Type} (fsProvider : FileSystemProvider W).

(** X22. [readAutoMemoryFile] counts the first 200 lines of MEMORY.md and
    no more. When it reports the file as existing, the provider resolved
    its [readFile] of the memory path with some content, and the text that
    is counted starts that content, has the first 200 lines of the content
    as its lines, is never longer than the content, and is the content
    itself when that has at most 200 lines. When it reports the file as
    absent, both counts are zero. *)
Theorem auto_memory_first_lines (projectRoot : string) (w : W) :
  info_path (readAutoMemoryFile homeDir path_join countTokens encodePath
               getClaudeBasePath fsProvider projectRoot w).1
  = memoryPathOf homeDir path_join encodePath getClaudeBasePath projectRoot
  ∧ (info_exists (readAutoMemoryFile homeDir path_join countTokens encodePath
                    getClaudeBasePath fsProvider projectRoot w).1 = false →
     charCount (readAutoMemoryFile homeDir path_join countTokens encodePath
                  getClaudeBasePath fsProvider projectRoot w).1 = 0
     ∧ estimatedTokens (readAutoMemoryFile homeDir path_join countTokens
                          encodePath getClaudeBasePath fsProvider projectRoot
                          w).1 = 0)
  ∧ (info_exists (readAutoMemoryFile homeDir path_join countTokens encodePath
                    getClaudeBasePath fsProvider projectRoot w).1 = true →
     ∃ content w1 text rest,
       fs_readFile fsProvider
         (memoryPathOf homeDir path_join encodePath getClaudeBasePath
            projectRoot) w1
       = (Returned content,
          (readAutoMemoryFile homeDir path_join countTokens encodePath
             getClaudeBasePath fsProvider projectRoot w).2)
       ∧ content = text +:+ rest
       ∧ split LF text = take 200 (split LF content)
       ∧ charCount (readAutoMemoryFile homeDir path_join countTokens
                      encodePath getClaudeBasePath fsProvider projectRoot w).1
         = Z.of_nat (String.length text)
       ∧ estimatedTokens (readAutoMemoryFile homeDir path_join countTokens
                            encodePath getClaudeBasePath fsProvider
                            projectRoot w).1
         = countTokens text
       ∧ (String.length text ≤ String.length content)%nat
       ∧ ((length (split LF content) ≤ 200)%nat → text = content)).
Proof.
  unfold readAutoMemoryFile.
  destruct (fs_exists fsProvider _ w) as [[[|]|e] w1]; simpl;
    [|by repeat split..].
  destruct (fs_readFile fsProvider _ w1) as [[content|e] w2] eqn:Hread; simpl;
    [|by repeat split].
  split; [done|]. split; [done|]. intros _.
  destruct (join_take_prefix LF content 200) as [rest Hrest].
  exists content, w1, (truncated content), rest.
  split; [done|]. split; [exact Hrest|].
  split; [apply split_join_take|]. split; [done|]. split; [done|].
  split.
  - pose proof (f_equal String.length Hrest) as Hl.
    rewrite length_append in Hl. unfold truncated. lia.
  - intros Hlen. unfold truncated. rewrite take_ge by done. apply join_split.
Qed.

End AnyProvider.

Lemma auto_memory_first_lines_witness :
  ∃ content w1 text rest,
    fs_readFile
      (oneFile "/home/u/.claude/projects/-work-app/memory/MEMORY.md"
         (linesOfX 250))
      (memoryPathOf "/home/u" slashJoin (fun _ => "-work-app") "/home/u/.claude"
         "/work/app") w1
    = (Returned content, 2%nat)
    ∧ content = text +:+ rest
    ∧ split LF text = take 200 (split LF content)
    ∧ charCount (readAutoMemoryFile "/home/u" slashJoin quarterTokens
                   (fun _ => "-work-app") "/home/u/.claude"
                   (oneFile "/home/u/.claude/projects/-work-app/memory/MEMORY.md"
                      (linesOfX 250)) "/work/app" 0%nat).1
      = Z.of_nat (String.length text)
    ∧ estimatedTokens (readAutoMemoryFile "/home/u" slashJoin quarterTokens
                         (fun _ => "-work-app") "/home/u/.claude"
                         (oneFile
                            "/home/u/.claude/projects/-work-app/memory/MEMORY.md"
                            (linesOfX 250)) "/work/app" 0%nat).1
      = quarterTokens text
    ∧ (String.length text ≤ String.length content)%nat
    ∧ ((length (split LF content) ≤ 200)%nat → text = content).
Proof.
  destruct (auto_memory_first_lines "/home/u" slashJoin quarterTokens
              (fun _ => "-work-app") "/home/u/.claude"
              (oneFile "/home/u/.claude/projects/-work-app/memory/MEMORY.md"
                 (linesOfX 250)) "/work/app" 0%nat) as (_ & _ & Hpresent).
  exact (Hpresent eq_refl).
Defined.

(** The first 200 of 250 lines: 399 of the 500 characters are counted. *)
Example auto_memory_truncated :
  (readAutoMemoryFile "/home/u" slashJoin quarterTokens (fun _ => "-work-app")
     "/home/u/.claude"
     (oneFile "/home/u/.claude/projects/-work-app/memory/MEMORY.md"
        (linesOfX 250)) "/work/app" 0%nat).1
  = MkClaudeMdFileInfo "/home/u/.claude/projects/-work-app/memory/MEMORY.md"
      true 399 99.
Proof. vm_compute. reflexivity. Qed.

(** ** Over the remote provider *)

Lemma attemptsIn_app (a b : list Event) :
  attemptsIn (a ++ b) = (attemptsIn a + attemptsIn b)%nat.
Proof. unfold attemptsIn. by rewrite List.filter_app, length_app. Qed.

Lemma sleepsIn_app (a b : list Event) :
  sleepsIn (a ++ b) = sleepsIn a ++ sleepsIn b.
Proof. apply omap_app. Qed.

Lemma sum_app (a b : list Z) :
  foldr Z.add 0 (a ++ b) = foldr Z.add 0 a + foldr Z.add 0 b.
Proof. induction a as [|x a IH]; simpl; [done|]. rewrite IH. lia. Qed.

Section OverSsh.

Context {Chan : Type} (sftp : SFTPWrapper Chan) (homeDir : string)
  (path_join : list string → string) (countTokens : string → Z).

(** X23. Reading a CLAUDE.md file through the remote provider asks the
    channel at least once and at most six times and waits at most 450 ms.
    The file is reported as existing only when the channel resolved a
    [readFile] of the expanded path, and then with the length and the
    tokens of that content; otherwise both counts are zero. When the first
    answer to the [stat] is an error that is not transient, the file is
    reported absent after that single call, and no [readFile] is sent. *)
Theorem remote_file_report (filePath : string) (w : World Chan) :
  info_path (readClaudeMdFile homeDir path_join countTokens
               (SshFileSystemProvider sftp) filePath w).1
  = expandTilde homeDir path_join filePath
  ∧ (∃ evs,
        log (readClaudeMdFile homeDir path_join countTokens
               (SshFileSystemProvider sftp) filePath w).2 = log w ++ evs
        ∧ (1 ≤ attemptsIn evs ≤ 6)%nat
        ∧ foldr Z.add 0 (sleepsIn evs) ≤ 450)
  ∧ (info_exists (readClaudeMdFile homeDir path_join countTokens
                    (SshFileSystemProvider sftp) filePath w).1 = true →
     ∃ content c,
       sftp_readFile sftp (expandTilde homeDir path_join filePath) "utf8" c
       = (inr content,
          chan (readClaudeMdFile homeDir path_join countTokens
                  (SshFileSystemProvider sftp) filePath w).2)
       ∧ charCount (readClaudeMdFile homeDir path_join countTokens
                      (SshFileSystemProvider sftp) filePath w).1
         = Z.of_nat (String.length content)
       ∧ estimatedTokens (readClaudeMdFile homeDir path_join countTokens
                            (SshFileSystemProvider sftp) filePath w).1
         = countTokens content)
  ∧ (info_exists (readClaudeMdFile homeDir path_join countTokens
                    (SshFileSystemProvider sftp) filePath w).1 = false →
     charCount (readClaudeMdFile homeDir path_join countTokens
                  (SshFileSystemProvider sftp) filePath w).1 = 0
     ∧ estimatedTokens (readClaudeMdFile homeDir path_join countTokens
                          (SshFileSystemProvider sftp) filePath w).1 = 0)
  ∧ (∀ e,
        channelError sftp (Stat (expandTilde homeDir path_join filePath)) (chan w)
        = Some e →
        classifySftpError e ≠ transient →
        (readClaudeMdFile homeDir path_join countTokens
           (SshFileSystemProvider sftp) filePath w).1
        = absent (expandTilde homeDir path_join filePath)
        ∧ log (readClaudeMdFile homeDir path_join countTokens
                 (SshFileSystemProvider sftp) filePath w).2
          = log w
            ++ [EvSftp OpStat (expandTilde homeDir path_join filePath) (Some e)]).
Proof.
  set (p := expandTilde homeDir path_join filePath).
  unfold readClaudeMdFile. fold p. simpl fs_exists. simpl fs_readFile.
  assert (Hbudget : ∀ evs : list Event,
            (sleepsIn evs = [] ∨ sleepsIn evs = [75] ∨ sleepsIn evs = [75; 150]) →
            attemptsIn evs = S (length (sleepsIn evs)) →
            (1 ≤ attemptsIn evs ≤ 3)%nat ∧ foldr Z.add 0 (sleepsIn evs) ≤ 225).
  { intros evs Hsl ->. destruct Hsl as [Hs | [Hs | Hs] ]; rewrite Hs; simpl; lia. }
  pose proof (SshExtras.attemptLoop_run OpStat p (sftp_stat sftp p) statResult
                ("Failed to stat: " +:+ p) w) as Hstat.
  destruct Hstat as (evs1 & Hlog1 & _ & _ & _ & _ & Hsl1 & Hat1 & _).
  destruct (Hbudget evs1 Hsl1 Hat1) as [Hn1 Ht1].
  destruct (exists_ sftp p w) as [b w1] eqn:Hex.
  assert (Hw1 : w1 = (stat sftp p w).2).
  { unfold exists_ in Hex. destruct (stat sftp p w) as [[r|e] w'].
    - by injection Hex as _ <-.
    - simpl. repeat case_match; by injection Hex as _ <-. }
  assert (Hfirst : ∀ e,
            channelError sftp (Stat p) (chan w) = Some e →
            classifySftpError e ≠ transient →
            b = false ∧ log w1 = log w ++ [EvSftp OpStat p (Some e)]).
  { intros e Hc Hk. simpl in Hc. unfold exists_, stat in Hex.
    change (Z.to_nat MAX_RETRIES) with 3%nat in Hex.
    destruct (sftp_stat sftp p (chan w)) as [[e'|a] c] eqn:Hcall;
      simpl in Hc; [|done]. injection Hc as ->.
    rewrite (SshFacts.attemptLoop_gives_up _ _ _ _ _ _ _ _ _ e c) in Hex by done.
    destruct (classifySftpError e); try done; by injection Hex as <- <-. }
  unfold stat in Hw1. rewrite <- Hw1 in Hlog1. clear Hex Hw1.
  destruct b; cbv beta iota.
  - pose proof (SshExtras.attemptLoop_run OpReadFile p
                  (sftp_readFile sftp p "utf8") id
                  ("Failed to read file: " +:+ p) w1) as Hread.
    destruct Hread as (evs2 & Hlog2 & _ & _ & _ & _ & Hsl2 & Hat2 & Hres).
    destruct (Hbudget evs2 Hsl2 Hat2) as [Hn2 Ht2].
    assert (Hrun : ∃ evs, log w ++ evs1 ++ evs2 = log w ++ evs
                          ∧ (1 ≤ attemptsIn evs ≤ 6)%nat
                          ∧ foldr Z.add 0 (sleepsIn evs) ≤ 450).
    { exists (evs1 ++ evs2). rewrite attemptsIn_app, sleepsIn_app, sum_app.
      split; [done|]. lia. }
    unfold readFile.
    destruct (attemptLoop OpReadFile p _ id _ _ 1 None w1)
      as [[content|e] w2] eqn:Hrf; simpl in *.
    + split; [done|]. split; [by rewrite Hlog2, Hlog1, <- app_assoc|].
      split.
      { intros _.
        destruct Hres as [(a & c & Hc & Hr & _)|(e & c & _ & Hr & _)];
          [|done]. injection Hr as ->. by exists a, c. }
      split; [done|]. intros e Hc Hk. by destruct (Hfirst e Hc Hk).
    + split; [done|]. split; [by rewrite Hlog2, Hlog1, <- app_assoc|].
      split; [done|]. split; [done|].
      intros e' Hc Hk. by destruct (Hfirst e' Hc Hk).
  - simpl. split; [done|]. split.
    { exists evs1. split; [done|]. lia. }
    split; [done|]. split; [done|].
    intros e Hc Hk. by destruct (Hfirst e Hc Hk) as [_ ->].
Qed.

End OverSsh.

Lemma remote_file_report_witness :
  (readClaudeMdFile "/home/u" slashJoin quarterTokens
     (SshFileSystemProvider (failingChannel sftpPermissionDenied))
     "~/CLAUDE.md" freshWorld).1
  = absent (expandTilde "/home/u" slashJoin "~/CLAUDE.md")
  ∧ log (readClaudeMdFile "/home/u" slashJoin quarterTokens
           (SshFileSystemProvider (failingChannel sftpPermissionDenied))
           "~/CLAUDE.md" freshWorld).2
    = log freshWorld
      ++ [EvSftp OpStat (expandTilde "/home/u" slashJoin "~/CLAUDE.md")
            (Some sftpPermissionDenied)].
Proof.
  destruct (remote_file_report (failingChannel sftpPermissionDenied) "/home/u"
              slashJoin quarterTokens "~/CLAUDE.md" freshWorld)
    as (_ & _ & _ & _ & Hfirst).
  apply (Hfirst sftpPermissionDenied).
  - reflexivity.
  - vm_compute. discriminate.
Defined.

(** A file whose [stat] never gets through is still read: after three
    transient rejections [exists] answers true, and the fourth call, the
    [readFile], brings the content. *)
Example unreachable_stat_still_read :
  (readClaudeMdFile "/home/u" slashJoin quarterTokens
     (SshFileSystemProvider
        (flakyChannel 3 sftpFailure "# Rules" regularFile []))
     "/work/app/CLAUDE.md" (MkWorld 0%nat [] [] [] [] [])).1
  = MkClaudeMdFileInfo "/work/app/CLAUDE.md" true 7 1.
Proof. vm_compute. reflexivity. Qed.
End ReaderExtras.
